(** * Context assembly and two-tier cache of claw-tribe

    A shallow embedding of [extension/lib/context-builder.ts],
    [extension/lib/intelligent-cache.ts] and the part of
    [extension/lib/tribe-runner.ts] they call, followed by the properties
    stated for them.

    Conventions of the embedding.
    - A JavaScript string is a [string]; its characters stand for the code
      units U+0000..U+00FF.
    - A value of type [unknown] coming from [JSON.parse] is a [json]; a
      property that is not there reads as [None] (JavaScript's [undefined]).
    - A function that may throw returns a [result]; [try_catch] is the
      [try { } catch { }] block.
    - [Date.now()] and the outcome of every call that leaves the process
      (the file system, the CLI child process) are read from the [World]. *)

From Stdlib Require Import ZArith Ascii String List Bool Lia DecimalString.
From stdpp Require Import strings functions.
From stdpp Require Import base option list gmap sorting.

Local Open Scope Z_scope.
#[local] Set Warnings "-register-all".

(** ** The JavaScript runtime the sources rely on *)

Module JS.

(** *** Strings *)

Definition code (c : ascii) : nat := nat_of_ascii c.

(** WhiteSpace and LineTerminator code units below U+0100: what [\s] matches
    and what [trim] strips. *)
Definition is_ws (c : ascii) : bool :=
  let n := code c in
  ((9 <=? n) && (n <=? 13) || (n =? 32) || (n =? 160))%nat.

Definition is_lower (c : ascii) : bool :=
  let n := code c in ((97 <=? n) && (n <=? 122))%nat.

Definition is_digit (c : ascii) : bool :=
  let n := code c in ((48 <=? n) && (n <=? 57))%nat.

(** [toLowerCase] on one code unit: A-Z, and the Latin-1 capitals
    U+00C0..U+00DE except the multiplication sign. *)
Definition lower_char (c : ascii) : ascii :=
  let n := code c in
  if ((65 <=? n) && (n <=? 90))%nat then ascii_of_nat (n + 32)
  else if ((192 <=? n) && (n <=? 222) && negb (n =? 215))%nat
       then ascii_of_nat (n + 32)
  else c.

Fixpoint map_chars (f : ascii -> ascii) (s : string) : string :=
  match s with
  | EmptyString => EmptyString
  | String c r => String (f c) (map_chars f r)
  end.

Definition toLowerCase (s : string) : string := map_chars lower_char s.

Fixpoint trimStart (s : string) : string :=
  match s with
  | EmptyString => EmptyString
  | String c r => if is_ws c then trimStart r else s
  end.

(** [trimEnd]: a character is kept when something that is not white space
    follows it or it is not white space itself. *)
Fixpoint trimEnd (s : string) : string :=
  match s with
  | EmptyString => EmptyString
  | String c r =>
      match trimEnd r with
      | EmptyString => if is_ws c then EmptyString else String c EmptyString
      | r' => String c r'
      end
  end.

Definition trim (s : string) : string := trimEnd (trimStart s).

(** [s.split(/\s+/)]: the pieces between maximal runs of white space.  A
    leading or trailing run leaves an empty piece at that end, and the empty
    string splits into one empty piece. *)
Fixpoint split_ws_go (in_sep : bool) (cur : string) (s : string) : list string :=
  match s with
  | EmptyString => [cur]
  | String c r =>
      if is_ws c
      then (if in_sep then split_ws_go true "" r
            else cur :: split_ws_go true "" r)
      else split_ws_go false (cur +:+ String c "") r
  end.

Definition split_ws (s : string) : list string := split_ws_go false "" s.

Fixpoint startsWith (s p : string) : bool :=
  match p, s with
  | EmptyString, _ => true
  | String _ _, EmptyString => false
  | String a p', String b s' => if Ascii.eqb a b then startsWith s' p' else false
  end.

(** [s.indexOf(c)] for a one-character needle; [None] is JavaScript's -1. *)
Fixpoint indexOf_char (s : string) (c : ascii) : option nat :=
  match s with
  | EmptyString => None
  | String a r =>
      if Ascii.eqb a c then Some 0%nat
      else match indexOf_char r c with
           | Some i => Some (S i)
           | None => None
           end
  end.

Definition indexOf (s : string) (c : ascii) : Z :=
  match indexOf_char s c with
  | Some i => Z.of_nat i
  | None => -1
  end.

Fixpoint drop_chars (n : nat) (s : string) : string :=
  match n, s with
  | O, _ => s
  | S _, EmptyString => EmptyString
  | S n', String _ r => drop_chars n' r
  end.

Fixpoint take_chars (n : nat) (s : string) : string :=
  match n, s with
  | O, _ => EmptyString
  | S _, EmptyString => EmptyString
  | S n', String c r => String c (take_chars n' r)
  end.

(** [s.slice(start)] with one argument. *)
Definition slice_from (s : string) (start : Z) : string :=
  let len := Z.of_nat (String.length s) in
  let from := if start <? 0 then Z.max (len + start) 0 else Z.min start len in
  drop_chars (Z.to_nat from) s.

(** [s.slice(0, n)] for a non-negative literal [n]. *)
Definition slice_to (s : string) (n : nat) : string := take_chars n s.

(** [arr.slice(0, end)]. *)
Definition array_slice0 {A} (l : list A) (e : Z) : list A :=
  let len := Z.of_nat (List.length l) in
  let upto := if e <? 0 then Z.max (len + e) 0 else Z.min e len in
  firstn (Z.to_nat upto) l.

Fixpoint join (sep : string) (l : list string) : string :=
  match l with
  | [] => ""
  | [x] => x
  | x :: r => x +:+ sep +:+ join sep r
  end.

(** [arr.sort(cmp)]: the sort is stable, and for a comparator that is a
    total preorder its result is the stable insertion sort. *)
Section Sort.
Context {A : Type} (cmp : A -> A -> Z).

Fixpoint sort_insert (x : A) (l : list A) : list A :=
  match l with
  | [] => [x]
  | y :: r => if cmp x y <=? 0 then x :: y :: r else y :: sort_insert x r
  end.

Fixpoint sort (l : list A) : list A :=
  match l with
  | [] => []
  | x :: r => sort_insert x (sort r)
  end.
End Sort.

(** *** Exceptions *)

Inductive exn : Type :=
| SyntaxError (msg : string)
| TypeError (msg : string)
| SystemError (msg : string).

Inductive result (A : Type) : Type :=
| Ok (a : A)
| Throw (e : exn).
Arguments Ok {A} a.
Arguments Throw {A} e.

#[global] Instance result_ret : MRet result := fun _ a => Ok a.
#[global] Instance result_bind : MBind result := fun _ _ f m =>
  match m with
  | Ok a => f a
  | Throw e => Throw e
  end.

(** [try { body } catch { handler }] *)
Definition try_catch {A} (body : result A) (handler : A) : A :=
  match body with
  | Ok a => a
  | Throw _ => handler
  end.

(** A [Map] with string keys, in insertion order: [set] on a key that is
    there keeps its place. *)
Section OrderedMap.
Context {V : Type}.

Fixpoint omap_get (m : list (string * V)) (k : string) : option V :=
  match m with
  | [] => None
  | (k', v) :: r => if String.eqb k' k then Some v else omap_get r k
  end.

Fixpoint omap_set (m : list (string * V)) (k : string) (v : V) : list (string * V) :=
  match m with
  | [] => [(k, v)]
  | (k', v') :: r =>
      if String.eqb k' k then (k', v) :: r else (k', v') :: omap_set r k v
  end.
End OrderedMap.

(** *** JSON values *)

(** A JSON number keeps its exact decimal value, [(-1)^neg * mant * 10^exp];
    the rounding to binary64 that JavaScript applies is not modelled. *)
Record jsnum : Type := JsNum { num_neg : bool; num_mant : N; num_exp : Z }.

Inductive json : Type :=
| JNull
| JBool (b : bool)
| JNum (n : jsnum)
| JStr (s : string)
| JArr (items : list json)
| JObj (fields : list (string * json)).

(** An own property of an object made by [JSON.parse]: for a repeated key
    the last member wins. *)
Fixpoint obj_get (fields : list (string * json)) (k : string) : option json :=
  match fields with
  | [] => None
  | (k', v) :: r =>
      match obj_get r k with
      | Some later => Some later
      | None => if String.eqb k' k then Some v else None
      end
  end.

(** [v.k] for a property name that no built-in prototype defines: reading
    from [null] throws, a primitive or an array has no such property. *)
Definition get_prop (v : json) (k : string) : result (option json) :=
  match v with
  | JNull => Throw (TypeError "Cannot read properties of null")
  | JObj fields => Ok (obj_get fields k)
  | _ => Ok None
  end.

(** [a ?? b] *)
Definition nullish {A} (a : option json) (b : A) (inj : json -> A) : A :=
  match a with
  | None | Some JNull => b
  | Some v => inj v
  end.
Notation "a ?? b" := (nullish a b Some) (at level 65, right associativity).

Definition truthy (v : option json) : bool :=
  match v with
  | None | Some JNull => false
  | Some (JBool b) => b
  | Some (JNum n) => negb (N.eqb (num_mant n) 0)
  | Some (JStr s) => negb (String.eqb s "")
  | Some (JArr _) | Some (JObj _) => true
  end.

Definition isArray (v : json) : bool :=
  match v with JArr _ => true | _ => false end.

(** *** Number to string *)

Definition dec_of_N (n : N) : string :=
  NilZero.string_of_uint (N.to_uint n).

Fixpoint strip_zeros (ds : string) : string :=
  match ds with
  | EmptyString => EmptyString
  | String c r =>
      match strip_zeros r with
      | EmptyString => if Ascii.eqb c "0"%char then EmptyString else String c EmptyString
      | r' => String c r'
      end
  end.

Fixpoint zeros (n : nat) : string :=
  match n with
  | O => ""
  | S n' => String "0"%char (zeros n')
  end.

(** [Number::toString] in radix 10 on the shortest digit string [ds] of the
    value, [k] its length and [n] the position of the decimal point. *)
Definition Number_toString (x : jsnum) : string :=
  if N.eqb (num_mant x) 0 then "0"
  else
    let ds0 := dec_of_N (num_mant x) in
    let ds := strip_zeros ds0 in
    let k := Z.of_nat (String.length ds) in
    let e := num_exp x + (Z.of_nat (String.length ds0) - k) in
    let n := k + e in
    let body :=
      if (k <=? n) && (n <=? 21) then ds +:+ zeros (Z.to_nat (n - k))
      else if (0 <? n) && (n <=? 21)
      then take_chars (Z.to_nat n) ds +:+ "." +:+ drop_chars (Z.to_nat n) ds
      else if (-6 <? n) && (n <=? 0) then "0." +:+ zeros (Z.to_nat (- n)) +:+ ds
      else
        let e' := n - 1 in
        let sign := if e' <? 0 then "-" else "+" in
        let digits := if k =? 1 then ds
                      else take_chars 1 ds +:+ "." +:+ drop_chars 1 ds in
        digits +:+ "e" +:+ sign +:+ dec_of_N (Z.to_N (Z.abs e'))
    in
    if num_neg x then "-" +:+ body else body.

(** [String(v)].  An object is converted by [Object.prototype.toString]
    unless it has an own [toString] member, which after [JSON.parse] is never
    callable: then the conversion throws.  An array is the join of its
    elements, [null] counting as the empty string. *)
Fixpoint ToString (v : json) : result string :=
  match v with
  | JNull => Ok "null"
  | JBool true => Ok "true"
  | JBool false => Ok "false"
  | JNum n => Ok (Number_toString n)
  | JStr s => Ok s
  | JArr items =>
      (fix go (l : list json) : result (list string) :=
         match l with
         | [] => Ok []
         | x :: r =>
             match (match x with JNull => Ok "" | _ => ToString x end) with
             | Ok s =>
                 match go r with
                 | Ok ss => Ok (s :: ss)
                 | Throw e => Throw e
                 end
             | Throw e => Throw e
             end
         end) items ≫= fun parts => Ok (join "," parts)
  | JObj fields =>
      match obj_get fields "toString" with
      | Some _ => Throw (TypeError "Cannot convert object to primitive value")
      | None => Ok "[object Object]"
      end
  end.

(** *** JSON.parse *)

(** The double quote, U+0022. *)
Definition dquote : ascii := ascii_of_nat 34.

Definition is_json_ws (c : ascii) : bool :=
  let n := code c in ((n =? 32) || (n =? 9) || (n =? 10) || (n =? 13))%nat.

Fixpoint skip_ws (s : string) : string :=
  match s with
  | EmptyString => EmptyString
  | String c r => if is_json_ws c then skip_ws r else s
  end.

Definition hex_val (c : ascii) : option nat :=
  let n := code c in
  if ((48 <=? n) && (n <=? 57))%nat then Some (n - 48)%nat
  else if ((97 <=? n) && (n <=? 102))%nat then Some (n - 87)%nat
  else if ((65 <=? n) && (n <=? 70))%nat then Some (n - 55)%nat
  else None.

(** The code unit of a [\uXXXX] escape; one above U+00FF, which a [string]
    cannot hold, is read as [?]. *)
Definition unit_of_hex (a b c d : nat) : ascii :=
  let n := (((a * 16 + b) * 16 + c) * 16 + d)%nat in
  if (n <? 256)%nat then ascii_of_nat n else "?"%char.

(** The characters of a string literal after its opening quote, up to the
    closing quote; the result is the decoded string and what follows. *)
Fixpoint parse_string_body (s : string) : option (string * string) :=
  match s with
  | EmptyString => None
  | String c r =>
      if Ascii.eqb c dquote then Some (EmptyString, r)
      else if Ascii.eqb c "\"%char then
        match r with
        | String e r' =>
            let simple (x : ascii) :=
              match parse_string_body r' with
              | Some (t, rest) => Some (String x t, rest)
              | None => None
              end in
            if Ascii.eqb e dquote then simple dquote
            else if Ascii.eqb e "\"%char then simple "\"%char
            else if Ascii.eqb e "/"%char then simple "/"%char
            else if Ascii.eqb e "b"%char then simple (ascii_of_nat 8)
            else if Ascii.eqb e "f"%char then simple (ascii_of_nat 12)
            else if Ascii.eqb e "n"%char then simple (ascii_of_nat 10)
            else if Ascii.eqb e "r"%char then simple (ascii_of_nat 13)
            else if Ascii.eqb e "t"%char then simple (ascii_of_nat 9)
            else if Ascii.eqb e "u"%char then
              match r' with
              | String h1 (String h2 (String h3 (String h4 r''))) =>
                  match hex_val h1, hex_val h2, hex_val h3, hex_val h4 with
                  | Some a, Some b, Some c', Some d =>
                      match parse_string_body r'' with
                      | Some (t, rest) => Some (String (unit_of_hex a b c' d) t, rest)
                      | None => None
                      end
                  | _, _, _, _ => None
                  end
              | _ => None
              end
            else None
        | EmptyString => None
        end
      else if (code c <? 32)%nat then None
      else
        match parse_string_body r with
        | Some (t, rest) => Some (String c t, rest)
        | None => None
        end
  end.

(** A maximal run of decimal digits: its value continuing from [acc], how
    many digits it has, and what follows. *)
Fixpoint span_digits (acc : N) (s : string) : N * nat * string :=
  match s with
  | EmptyString => (acc, O, s)
  | String c r =>
      if is_digit c
      then let '(v, n, rest) := span_digits (acc * 10 + N.of_nat (code c - 48)) r in
           (v, S n, rest)
      else (acc, O, s)
  end.

Definition parse_number (s : string) : option (jsnum * string) :=
  let '(neg, s1) :=
    match s with
    | String "-"%char r => (true, r)
    | _ => (false, s)
    end in
  (* int *)
  match s1 with
  | String c r1 =>
      if is_digit c then
        let '(ipart, s2) :=
          if Ascii.eqb c "0"%char then (0%N, r1)
          else let '(v, _, rest) := span_digits 0 s1 in (v, rest) in
        (* frac *)
        let frac :=
          match s2 with
          | String "."%char r2 =>
              let '(v, n, rest) := span_digits ipart r2 in
              if (n =? 0)%nat then None else Some (v, n, rest)
          | _ => Some (ipart, O, s2)
          end in
        match frac with
        | None => None
        | Some (mant, nfrac, s3) =>
            (* exp *)
            let finish (e : Z) (rest : string) :=
              Some (JsNum neg mant (e - Z.of_nat nfrac), rest) in
            let exp_digits (sgn : Z) (r : string) :=
              let '(v, n, rest) := span_digits 0 r in
              if (n =? 0)%nat then None else finish (sgn * Z.of_N v) rest in
            match s3 with
            | String x r3 =>
                if Ascii.eqb x "e"%char || Ascii.eqb x "E"%char then
                  match r3 with
                  | String "+"%char r4 => exp_digits 1 r4
                  | String "-"%char r4 => exp_digits (-1) r4
                  | _ => exp_digits 1 r3
                  end
                else finish 0 s3
            | EmptyString => finish 0 s3
            end
        end
      else None
  | EmptyString => None
  end.

Definition parse_literal (lit : string) (v : json) (s : string) : option (json * string) :=
  if startsWith s lit then Some (v, drop_chars (String.length lit) s) else None.

(** One unit of [fuel] is spent on every value, on every element of an array
    and on every member of an object. *)
Fixpoint parse_value (fuel : nat) (s : string) : option (json * string) :=
  match fuel with
  | O => None
  | S fuel' =>
      match skip_ws s with
      | EmptyString => None
      | String c r =>
          if Ascii.eqb c "["%char then
            match skip_ws r with
            | String "]"%char rest => Some (JArr [], rest)
            | _ =>
                match parse_elements fuel' r with
                | Some (items, rest) => Some (JArr items, rest)
                | None => None
                end
            end
          else if Ascii.eqb c "{"%char then
            match skip_ws r with
            | String "}"%char rest => Some (JObj [], rest)
            | _ =>
                match parse_members fuel' r with
                | Some (fields, rest) => Some (JObj fields, rest)
                | None => None
                end
            end
          else if Ascii.eqb c dquote then
            match parse_string_body r with
            | Some (t, rest) => Some (JStr t, rest)
            | None => None
            end
          else if Ascii.eqb c "t"%char then parse_literal "true" (JBool true) (String c r)
          else if Ascii.eqb c "f"%char then parse_literal "false" (JBool false) (String c r)
          else if Ascii.eqb c "n"%char then parse_literal "null" JNull (String c r)
          else
            match parse_number (String c r) with
            | Some (n, rest) => Some (JNum n, rest)
            | None => None
            end
      end
  end
with parse_elements (fuel : nat) (s : string) : option (list json * string) :=
  match fuel with
  | O => None
  | S fuel' =>
      match parse_value fuel' s with
      | Some (v, rest) =>
          match skip_ws rest with
          | String ","%char rest' =>
              match parse_elements fuel' rest' with
              | Some (vs, rest'') => Some (v :: vs, rest'')
              | None => None
              end
          | String "]"%char rest' => Some ([v], rest')
          | _ => None
          end
      | None => None
      end
  end
with parse_members (fuel : nat) (s : string) : option (list (string * json) * string) :=
  match fuel with
  | O => None
  | S fuel' =>
      match skip_ws s with
      | String c r =>
          if negb (Ascii.eqb c dquote) then None
          else
            match parse_string_body r with
            | Some (k, rest) =>
                match skip_ws rest with
                | String ":"%char rest' =>
                    match parse_value fuel' rest' with
                    | Some (v, rest'') =>
                        match skip_ws rest'' with
                        | String ","%char rest3 =>
                            match parse_members fuel' rest3 with
                            | Some (fs, rest4) => Some ((k, v) :: fs, rest4)
                            | None => None
                            end
                        | String "}"%char rest3 => Some ([(k, v)], rest3)
                        | _ => None
                        end
                    | None => None
                    end
                | _ => None
                end
            | None => None
            end
      | EmptyString => None
      end
  end.

(** [JSON.parse(text)]: one value, white space around it, nothing else. *)
Definition JSON_parse (text : string) : result json :=
  match parse_value (2 * String.length text + 2) text with
  | Some (v, rest) =>
      match skip_ws rest with
      | EmptyString => Ok v
      | _ => Throw (SyntaxError "Unexpected token in JSON")
      end
  | None => Throw (SyntaxError "Unexpected token in JSON")
  end.

End JS.

(** ** context-builder.ts: the Term Extractor *)

Definition STOP_WORDS : list string :=
  [ "a"; "an"; "the"; "is"; "are"; "was"; "were"; "be"; "been"; "being";
    "have"; "has"; "had"; "do"; "does"; "did"; "will"; "would"; "could";
    "should"; "may"; "might"; "shall"; "can"; "need"; "must";
    "i"; "you"; "he"; "she"; "it"; "we"; "they"; "me"; "him"; "her"; "us"; "them";
    "my"; "your"; "his"; "its"; "our"; "their";
    "this"; "that"; "these"; "those"; "what"; "which"; "who"; "whom";
    "and"; "but"; "or"; "nor"; "not"; "no"; "so"; "if"; "then"; "else";
    "for"; "of"; "in"; "on"; "at"; "to"; "by"; "with"; "from"; "up"; "out";
    "about"; "into"; "through"; "during"; "before"; "after"; "above"; "below";
    "how"; "when"; "where"; "why"; "all"; "each"; "every"; "both";
    "few"; "more"; "most"; "other"; "some"; "such"; "only"; "same";
    "than"; "too"; "very"; "just"; "because"; "as"; "until"; "while";
    "use"; "using"; "implement"; "add"; "create"; "make"; "get"; "set" ].

Definition is_stop_word (w : string) : bool :=
  existsb (String.eqb w) STOP_WORDS.

(** The character class of [/[^a-z0-9\s-]/g]: what is outside becomes a
    space. *)
Definition keep_char (c : ascii) : bool :=
  JS.is_lower c || JS.is_digit c || JS.is_ws c || Ascii.eqb c "-"%char.

Definition strip_char (c : ascii) : ascii :=
  if keep_char c then c else " "%char.

Definition candidate_words (prompt : string) : list string :=
  List.filter (fun w => (3 <=? String.length w)%nat && negb (is_stop_word w))
         (JS.split_ws (JS.map_chars strip_char (JS.toLowerCase prompt))).

(** [words.map((w, i) => ({word: w, score: w.length * 10 + (words.length - i)}))],
    with [total] the length of the whole array and [i] the index of the head
    of [ws] in it. *)
Fixpoint score_words (total : nat) (i : nat) (ws : list string) : list (string * Z) :=
  match ws with
  | [] => []
  | w :: r =>
      (w, Z.of_nat (String.length w) * 10 + (Z.of_nat total - Z.of_nat i))
        :: score_words total (S i) r
  end.

(** The deduplication loop over [scored], keeping the highest score. *)
Fixpoint dedupe_scores (seen : list (string * Z)) (scored : list (string * Z))
  : list (string * Z) :=
  match scored with
  | [] => seen
  | (word, score) :: r =>
      match JS.omap_get seen word with
      | None => dedupe_scores (JS.omap_set seen word score) r
      | Some existing =>
          if existing <? score
          then dedupe_scores (JS.omap_set seen word score) r
          else dedupe_scores seen r
      end
  end.

Definition fallback_keyword (prompt : string) : string :=
  match JS.split_ws (JS.trim prompt) with
  | EmptyString :: _ => prompt
  | w :: _ => w
  | [] => prompt
  end.

Definition extractSearchKeywords (prompt : string) (count : Z) : list string :=
  let words := candidate_words prompt in
  match words with
  | [] => [fallback_keyword prompt]
  | _ =>
      let scored := score_words (List.length words) 0 words in
      let seen := dedupe_scores [] scored in
      let unique := map fst (JS.sort (fun a b => snd b - snd a) seen) in
      JS.array_slice0 unique count
  end.

Definition extractSearchKeyword (prompt : string) : option string :=
  head (extractSearchKeywords prompt 1).

(** ** context-builder.ts: tolerant JSON extraction *)

Definition extractJSON (stdout : string) : JS.result JS.json :=
  let trimmed := JS.trim stdout in
  if JS.startsWith trimmed "[" || JS.startsWith trimmed "{" then
    JS.JSON_parse trimmed
  else
    let arrayStart := JS.indexOf trimmed "["%char in
    let objectStart := JS.indexOf trimmed "{"%char in
    let start :=
      if (0 <=? arrayStart) && (0 <=? objectStart)
      then Z.min arrayStart objectStart
      else Z.max arrayStart objectStart in
    if start <? 0 then JS.Throw (JS.SyntaxError "No JSON found in output")
    else JS.JSON_parse (JS.slice_from trimmed start).

(** ** Records of the two sources *)

Inductive ContextDepth : Type := minimal | standard | deep.

Record SessionMeta : Type := {
  sm_id : string;
  sm_tool : string;
  sm_project : string;
  sm_branch : option string;
  sm_startedAt : string;
  sm_duration : option string;
  sm_summary : option string
}.

Record KBMatch : Type := {
  kb_id : string;
  kb_category : option string;
  kb_text : string
}.

Record CachedContext : Type := {
  cc_sessions : list SessionMeta;
  cc_fetchedAt : Z
}.

Inductive CacheNamespace : Type := kb | sessions | search.

#[global] Instance CacheNamespace_eq_dec : EqDecision CacheNamespace.
Proof. solve_decision. Defined.

#[global] Instance CacheNamespace_countable : Countable CacheNamespace.
Proof.
  refine (inj_countable'
            (fun ns => match ns with kb => 0%nat | sessions => 1%nat | search => 2%nat end)
            (fun n => match n with 0%nat => kb | 1%nat => sessions | _ => search end) _).
  by intros [].
Defined.

Definition ns_name (ns : CacheNamespace) : string :=
  match ns with
  | kb => "kb"
  | sessions => "sessions"
  | search => "search"
  end.

(** TTLs per namespace (milliseconds) *)
Definition L1_TTLS (ns : CacheNamespace) : Z :=
  match ns with
  | kb => 10 * 60000
  | sessions => 1 * 60000
  | search => 5 * 60000
  end.

Definition L2_TTLS (ns : CacheNamespace) : Z :=
  match ns with
  | kb => 30 * 60000
  | sessions => 5 * 60000
  | search => 15 * 60000
  end.

Definition DEBOUNCE_MS : nat := 2000.

Record CacheEntry (V : Type) : Type := {
  value : V;
  expiresAt : Z
}.
Arguments value {V} _.
Arguments expiresAt {V} _.

Record DiskCacheFormat (V : Type) : Type := {
  version : Z;
  entries : gmap string (CacheEntry V)
}.
Arguments version {V} _.
Arguments entries {V} _.

(** The storage unit of one namespace, as [readFile] and [JSON.parse] find
    it: no file, a file that cannot be read or parsed, or a file holding a
    [DiskCacheFormat].  Values are assumed to survive [JSON.stringify] and
    [JSON.parse] unchanged. *)
Inductive file (V : Type) : Type :=
| NoFile
| Unreadable
| Stored (d : DiskCacheFormat V).
Arguments NoFile {V}.
Arguments Unreadable {V}.
Arguments Stored {V} d.

(** The fields of an [IntelligentCache] instance. *)
Record Cache (V : Type) : Type := {
  l1 : gmap string (CacheEntry V);
  l2Dirty : gset CacheNamespace;
  l2Timers : gset CacheNamespace;
  l2Loaded : gset CacheNamespace
}.
Arguments l1 {V} _.
Arguments l2Dirty {V} _.
Arguments l2Timers {V} _.
Arguments l2Loaded {V} _.

Definition empty_cache {V} : Cache V :=
  {| l1 := ∅; l2Dirty := ∅; l2Timers := ∅; l2Loaded := ∅ |}.

(** ** The world outside the functions *)

(** What [execFile] hands to its callback: [error.code] when it is a number. *)
Record ExecError : Type := { err_code : option Z }.

(** The life of one child process: after [after] milliseconds the callback
    runs with [(error, stdout, stderr)], or it never runs. *)
Inductive exec_outcome : Type :=
| ExecCallback (after : nat) (error : option ExecError) (stdout stderr : string)
| ExecNever.

Inductive effect : Type :=
| ExecFile (args : list string) (timeoutMs : Z)
| KillChild
| SetTimeout (ms : nat)
| ClearTimeout.

Record World (V : Type) : Type := {
  (** [clock n] is what the [n]-th reading of the time returns *)
  clock : nat -> Z;
  ticks : nat;
  (** whether [access(TRIBE_BIN, X_OK)] succeeds *)
  installed : bool;
  (** the outcome of the [n]-th child process, given its arguments *)
  exec : nat -> list string -> exec_outcome;
  spawned : nat;
  (** who runs first when a promise settles in the very millisecond in
      which a timer is due *)
  timer_first : bool;
  (** [new Date(iso).getTime()], [None] for an invalid date *)
  date_parse : string -> option Z;
  effects : list effect;
  (** module state of context-builder.ts and the cache singleton *)
  sessionCache : option CachedContext;
  cache : Cache V;
  disk : CacheNamespace -> file V
}.
Arguments clock {V} _ _.
Arguments ticks {V} _.
Arguments installed {V} _.
Arguments exec {V} _ _ _.
Arguments spawned {V} _.
Arguments timer_first {V} _.
Arguments date_parse {V} _ _.
Arguments effects {V} _.
Arguments sessionCache {V} _.
Arguments cache {V} _.
Arguments disk {V} _ _.

Section WorldUpdates.
Context {V : Type}.

Definition with_ticks (n : nat) (w : World V) : World V :=
  {| clock := clock w; ticks := n; installed := installed w; exec := exec w;
     spawned := spawned w; timer_first := timer_first w;
     date_parse := date_parse w; effects := effects w;
     sessionCache := sessionCache w; cache := cache w; disk := disk w |}.

Definition with_spawned (n : nat) (w : World V) : World V :=
  {| clock := clock w; ticks := ticks w; installed := installed w; exec := exec w;
     spawned := n; timer_first := timer_first w;
     date_parse := date_parse w; effects := effects w;
     sessionCache := sessionCache w; cache := cache w; disk := disk w |}.

Definition with_effects (l : list effect) (w : World V) : World V :=
  {| clock := clock w; ticks := ticks w; installed := installed w; exec := exec w;
     spawned := spawned w; timer_first := timer_first w;
     date_parse := date_parse w; effects := l;
     sessionCache := sessionCache w; cache := cache w; disk := disk w |}.

Definition with_sessionCache (c : option CachedContext) (w : World V) : World V :=
  {| clock := clock w; ticks := ticks w; installed := installed w; exec := exec w;
     spawned := spawned w; timer_first := timer_first w;
     date_parse := date_parse w; effects := effects w;
     sessionCache := c; cache := cache w; disk := disk w |}.

Definition with_cache (c : Cache V) (w : World V) : World V :=
  {| clock := clock w; ticks := ticks w; installed := installed w; exec := exec w;
     spawned := spawned w; timer_first := timer_first w;
     date_parse := date_parse w; effects := effects w;
     sessionCache := sessionCache w; cache := c; disk := disk w |}.

Definition with_disk (d : CacheNamespace -> file V) (w : World V) : World V :=
  {| clock := clock w; ticks := ticks w; installed := installed w; exec := exec w;
     spawned := spawned w; timer_first := timer_first w;
     date_parse := date_parse w; effects := effects w;
     sessionCache := sessionCache w; cache := cache w; disk := d |}.
End WorldUpdates.

(** ** Computations: state of the world, and exceptions *)

(** How a computation ends: with a value, with an exception, or never (it
    awaits a promise that stays pending). *)
Inductive completion (A : Type) : Type :=
| Returns (a : A)
| Throws (e : JS.exn)
| Hangs.
Arguments Returns {A} a.
Arguments Throws {A} e.
Arguments Hangs {A}.

Definition M (V A : Type) : Type := World V -> completion A * World V.

#[global] Instance M_ret {V} : MRet (M V) := fun _ a w => (Returns a, w).
#[global] Instance M_bind {V} : MBind (M V) := fun _ _ f m w =>
  match m w with
  | (Returns a, w') => f a w'
  | (Throws e, w') => (Throws e, w')
  | (Hangs, w') => (Hangs, w')
  end.

(** [Promise.all]: it rejects as soon as one task rejects, and otherwise
    waits for all of them. *)
Definition join_all {A B C} (f : A -> B -> C) (a : completion A) (b : completion B)
  : completion C :=
  match a, b with
  | Throws e, _ => Throws e
  | _, Throws e => Throws e
  | Hangs, _ => Hangs
  | _, Hangs => Hangs
  | Returns x, Returns y => Returns (f x y)
  end.

Section Computations.
Context {V : Type}.

Definition throw {A} (e : JS.exn) : M V A := fun w => (Throws e, w).

Definition hang {A} : M V A := fun w => (Hangs, w).

Definition lift {A} (r : JS.result A) : M V A := fun w =>
  match r with
  | JS.Ok a => (Returns a, w)
  | JS.Throw e => (Throws e, w)
  end.

(** [try { body } catch { handler }] *)
Definition try_catchM {A} (body : M V A) (handler : M V A) : M V A := fun w =>
  match body w with
  | (Returns a, w') => (Returns a, w')
  | (Throws _, w') => handler w'
  | (Hangs, w') => (Hangs, w')
  end.

(** [try { body } finally { cleanup }] *)
Definition try_finally {A} (body : M V A) (cleanup : M V unit) : M V A := fun w =>
  match body w with
  | (Hangs, w') => (Hangs, w')
  | (r, w') =>
      match cleanup w' with
      | (Returns _, w'') => (r, w'')
      | (Throws e, w'') => (Throws e, w'')
      | (Hangs, w'') => (Hangs, w'')
      end
  end.

Definition gets {A} (f : World V -> A) : M V A := fun w => (Returns (f w), w).

Definition modify (f : World V -> World V) : M V unit := fun w => (Returns tt, f w).

(** [Date.now()] *)
Definition Date_now : M V Z := fun w =>
  (Returns (clock w (ticks w)), with_ticks (S (ticks w)) w).

Definition emit (e : effect) : M V unit :=
  modify (fun w => with_effects (effects w ++ [e]) w).

(** [Promise.all(xs.map(f))]: every task is started, and so has its effect,
    whatever becomes of the others. *)
Fixpoint all_map {A B} (f : A -> M V B) (xs : list A) : M V (list B) := fun w =>
  match xs with
  | [] => (Returns [], w)
  | x :: r =>
      let '(rx, w1) := f x w in
      let '(rr, w2) := all_map f r w1 in
      (join_all cons rx rr, w2)
  end.

(** [Promise.all([a, b])] for two tasks. *)
Definition all_pair {A B} (a : M V A) (b : M V B) : M V (A * B) := fun w =>
  let '(ra, w1) := a w in
  let '(rb, w2) := b w1 in
  (join_all pair ra rb, w2).
End Computations.

(** ** Promises and the Bounded Query Executor *)

Inductive settled (A : Type) : Type :=
| Resolved (a : A)
| Rejected (e : JS.exn).
Arguments Resolved {A} a.
Arguments Rejected {A} e.

(** A promise, seen from the moment it is handed over: it settles [after]
    milliseconds from then, or it stays pending for ever. *)
Inductive promise (A : Type) : Type :=
| Settles (after : nat) (r : settled A)
| Pending.
Arguments Settles {A} after r.
Arguments Pending {A}.

(** [Promise.race([p, q])]: the promise that settles as the first of the
    two does.  When both settle in the same millisecond, [p_first] tells
    whose turn comes first. *)
Definition Promise_race {A} (p_first : bool) (p q : promise A) : promise A :=
  match p, q with
  | Settles t _, Settles u _ =>
      if (t <? u)%nat then p
      else if (u <? t)%nat then q
      else if p_first then p else q
  | Settles _ _, Pending => p
  | Pending, _ => q
  end.

(** [new Promise((resolve) => { timer = setTimeout(() => resolve(fallback), ms) })] *)
Definition timeout_promise {A} (ms : nat) (fallback : A) : promise A :=
  Settles ms (Resolved fallback).

Section Executor.
Context {V : Type}.

(** [await p] *)
Definition await {A} (p : promise A) : M V A :=
  match p with
  | Settles _ (Resolved a) => mret a
  | Settles _ (Rejected e) => throw e
  | Pending => hang
  end.

Definition withTimeout {A} (p : promise A) (ms : nat) (fallback : A) : M V A :=
  _ ← emit (SetTimeout ms);
  timer_wins ← gets timer_first;
  try_finally
    (await (Promise_race (negb timer_wins) p (timeout_promise ms fallback)))
    (emit ClearTimeout).
End Executor.

(** ** tribe-runner.ts *)

Inductive TimeoutCategory : Type := t_fast | t_default | t_slow | t_long.

Definition TIMEOUTS (c : TimeoutCategory) : Z :=
  match c with
  | t_fast => 15000
  | t_default => 30000
  | t_slow => 60000
  | t_long => 120000
  end.

Record RunResult : Type := {
  stdout : string;
  stderr : string;
  exitCode : Z
}.

Section Runner.
Context {V : Type}.

Definition ensureInstalled : M V bool :=
  try_catchM
    (ok ← gets installed;
     if ok : bool then mret true else throw (JS.SystemError "EACCES"))
    (mret false).

(** [run(args, { timeout, json, signal })].  [signal] is [Some a] when an
    abort signal is passed that fires [a] milliseconds after the call: if
    the child has not finished by then it is killed and the promise
    rejects.  Without a signal the promise never rejects and nothing kills
    the child. *)
Definition run (args : list string) (timeout : TimeoutCategory) (json : bool)
    (signal : option nat) : M V (promise RunResult) :=
  let finalArgs := if json then args ++ ["--format"; "json"] else args in
  n ← gets spawned;
  outcome ← gets (fun w => exec w n finalArgs);
  _ ← modify (with_spawned (S n));
  _ ← emit (ExecFile finalArgs (TIMEOUTS timeout));
  let resolved after error out err :=
    let code :=
      match error with
      | Some {| err_code := Some c |} => c
      | Some {| err_code := None |} => 1
      | None => 0
      end in
    Settles after (Resolved {| stdout := out; stderr := err; exitCode := code |}) in
  let aborted a :=
    _ ← emit KillChild;
    mret (Settles a (Rejected (JS.SystemError "AbortError"))) in
  match outcome, signal with
  | ExecCallback after error out err, None => mret (resolved after error out err)
  | ExecCallback after error out err, Some a =>
      if (a <? after)%nat then aborted a else mret (resolved after error out err)
  | ExecNever, None => mret Pending
  | ExecNever, Some a => aborted a
  end.
End Runner.

Section Core.
(** [createHash("md5").update(key).digest("hex")] *)
Context (md5_hex : string -> string).

(** ** intelligent-cache.ts *)

Definition cacheKey (ns : CacheNamespace) (key : string) : string :=
  ns_name ns +:+ ":" +:+ md5_hex key.

Definition ns_prefix (ns : CacheNamespace) : string := ns_name ns +:+ ":".

Section IntelligentCache.
Context {V : Type}.

Definition with_l1 (m : gmap string (CacheEntry V)) (c : Cache V) : Cache V :=
  {| l1 := m; l2Dirty := l2Dirty c; l2Timers := l2Timers c; l2Loaded := l2Loaded c |}.
Definition with_l2Dirty (s : gset CacheNamespace) (c : Cache V) : Cache V :=
  {| l1 := l1 c; l2Dirty := s; l2Timers := l2Timers c; l2Loaded := l2Loaded c |}.
Definition with_l2Timers (s : gset CacheNamespace) (c : Cache V) : Cache V :=
  {| l1 := l1 c; l2Dirty := l2Dirty c; l2Timers := s; l2Loaded := l2Loaded c |}.
Definition with_l2Loaded (s : gset CacheNamespace) (c : Cache V) : Cache V :=
  {| l1 := l1 c; l2Dirty := l2Dirty c; l2Timers := l2Timers c; l2Loaded := s |}.

Definition modify_cache (f : Cache V -> Cache V) : M V unit :=
  modify (fun w => with_cache (f (cache w)) w).

(** [JSON.parse(await readFile(diskPath(namespace), "utf-8"))] *)
Definition read_disk (ns : CacheNamespace) : M V (DiskCacheFormat V) := fun w =>
  match disk w ns with
  | NoFile => (Throws (JS.SystemError "ENOENT"), w)
  | Unreadable => (Throws (JS.SyntaxError "Unexpected token in JSON"), w)
  | Stored d => (Returns d, w)
  end.

(** [writeFile(diskPath(namespace), JSON.stringify(d), "utf-8")] and
    [rm(diskPath(namespace), { force: true })].  Both are taken to
    succeed; the handlers that ignore their failure have nothing to do. *)
Definition write_disk (ns : CacheNamespace) (d : DiskCacheFormat V) : M V unit :=
  modify (fun w => with_disk (<[ns := Stored d]> (disk w)) w).

Definition rm_disk (ns : CacheNamespace) : M V unit :=
  modify (fun w => with_disk (<[ns := NoFile]> (disk w)) w).

Definition loadL2 (ns : CacheNamespace) : M V unit :=
  loaded ← gets (fun w => bool_decide (ns ∈ l2Loaded (cache w)));
  if loaded : bool then mret tt
  else modify_cache (fun c => with_l2Loaded ({[ns]} ∪ l2Loaded c) c).

Definition l2Get (ns : CacheNamespace) (ck : string) : M V (option V) :=
  _ ← loadL2 ns;
  try_catchM
    (parsed ← read_disk ns;
     if negb (version parsed =? 1) then mret None
     else match entries parsed !! ck with
          | None => mret None
          | Some entry =>
              now ← Date_now;
              if expiresAt entry <=? now then mret None
              else mret (Some (value entry))
          end)
    (mret None).

Definition get (ns : CacheNamespace) (key : string) : M V (option V) :=
  let ck := cacheKey ns key in
  let check_l2 : M V (option V) :=
    l2Value ← l2Get ns ck;
    match l2Value with
    | Some v =>
        (* Promote to L1 *)
        now ← Date_now;
        _ ← modify_cache (fun c =>
               with_l1 (<[ck := {| value := v; expiresAt := now + L1_TTLS ns |}]> (l1 c)) c);
        mret (Some v)
    | None => mret None
    end in
  l1Entry ← gets (fun w => l1 (cache w) !! ck);
  match l1Entry with
  | Some e =>
      now ← Date_now;
      if now <? expiresAt e then mret (Some (value e))
      else
        _ ← modify_cache (fun c => with_l1 (delete ck (l1 c)) c);
        check_l2
  | None => check_l2
  end.

Definition scheduleL2Write (ns : CacheNamespace) : M V unit :=
  scheduled ← gets (fun w => bool_decide (ns ∈ l2Timers (cache w)));
  if scheduled : bool then mret tt
  else
    _ ← emit (SetTimeout DEBOUNCE_MS);
    modify_cache (fun c => with_l2Timers ({[ns]} ∪ l2Timers c) c).

Definition set (ns : CacheNamespace) (key : string) (v : V) : M V unit :=
  let ck := cacheKey ns key in
  now ← Date_now;
  _ ← modify_cache (fun c =>
         with_l1 (<[ck := {| value := v; expiresAt := now + L1_TTLS ns |}]> (l1 c)) c);
  _ ← modify_cache (fun c => with_l2Dirty ({[ns]} ∪ l2Dirty c) c);
  scheduleL2Write ns.

Definition in_namespace (ns : CacheNamespace) (kv : string * CacheEntry V) : Prop :=
  JS.startsWith kv.1 (ns_prefix ns) = true.

#[global] Instance in_namespace_dec ns kv : Decision (in_namespace ns kv).
Proof. unfold in_namespace. apply _. Defined.

(** [invalidate] up to its [await rm(...)], and from there on. *)
Definition invalidate_begins (ns : CacheNamespace) : M V unit :=
  _ ← modify_cache (fun c =>
         with_l1 (filter (fun kv => ¬ in_namespace ns kv) (l1 c)) c);
  rm_disk ns.

Definition invalidate_resumes (ns : CacheNamespace) : M V unit :=
  modify_cache (fun c => with_l2Loaded (l2Loaded c ∖ {[ns]}) c).

Definition invalidate (ns : CacheNamespace) : M V unit :=
  _ ← invalidate_begins ns;
  invalidate_resumes ns.

Definition invalidateAll : M V unit :=
  _ ← modify_cache (with_l1 ∅);
  _ ← modify_cache (with_l2Loaded ∅);
  _ ← rm_disk kb;
  _ ← rm_disk sessions;
  rm_disk search.

Definition unexpired (now : Z) (kv : string * CacheEntry V) : Prop :=
  now < expiresAt kv.2.

#[global] Instance unexpired_dec now kv : Decision (unexpired now kv).
Proof. unfold unexpired. apply _. Defined.

(** The two loops of [flushL2]: first every unexpired L1 entry of the
    namespace is assigned into [existing.entries] with the L2 expiry,
    then every entry whose expiry has passed is deleted. *)
Definition merge_l1 (ns : CacheNamespace) (now : Z)
    (fast_tier existing : gmap string (CacheEntry V)) : gmap string (CacheEntry V) :=
  ((fun e => {| value := value e; expiresAt := now + L2_TTLS ns |})
     <$> filter (fun kv => in_namespace ns kv ∧ unexpired now kv) fast_tier)
  ∪ existing.

Definition prune (now : Z) (m : gmap string (CacheEntry V)) : gmap string (CacheEntry V) :=
  filter (unexpired now) m.

(** [flushL2] up to its [await readFile(...)], which yields [existing], and
    from there on.  Between the two the flush is suspended and other tasks
    run. *)
Definition flushL2_reads (ns : CacheNamespace) : M V (gmap string (CacheEntry V)) :=
  try_catchM
    (parsed ← read_disk ns;
     if negb (version parsed =? 1) then mret ∅ else mret (entries parsed))
    (mret ∅).

Definition flushL2_resumes (ns : CacheNamespace) (existing : gmap string (CacheEntry V))
  : M V unit :=
  now ← Date_now;
  fast_tier ← gets (fun w => l1 (cache w));
  write_disk ns {| version := 1; entries := prune now (merge_l1 ns now fast_tier existing) |}.

Definition flushL2 (ns : CacheNamespace) : M V unit :=
  existing ← flushL2_reads ns;
  flushL2_resumes ns existing.

(** The callback that [scheduleL2Write] hands to [setTimeout]: up to the
    point where [flushL2] is suspended, and as a whole. *)
Definition l2_timer_begins (ns : CacheNamespace)
  : M V (option (gmap string (CacheEntry V))) :=
  _ ← modify_cache (fun c => with_l2Timers (l2Timers c ∖ {[ns]}) c);
  dirty ← gets (fun w => bool_decide (ns ∈ l2Dirty (cache w)));
  if dirty : bool then
    _ ← modify_cache (fun c => with_l2Dirty (l2Dirty c ∖ {[ns]}) c);
    existing ← flushL2_reads ns;
    mret (Some existing)
  else mret None.

Definition l2_timer_fires (ns : CacheNamespace) : M V unit :=
  _ ← modify_cache (fun c => with_l2Timers (l2Timers c ∖ {[ns]}) c);
  dirty ← gets (fun w => bool_decide (ns ∈ l2Dirty (cache w)));
  if dirty : bool then
    _ ← modify_cache (fun c => with_l2Dirty (l2Dirty c ∖ {[ns]}) c);
    flushL2 ns
  else mret tt.
End IntelligentCache.

(** ** context-builder.ts: session cache and adapters *)

Abbreviation CB := (M (list KBMatch)).

Definition nl : string := String (ascii_of_nat 10) "".

Definition CACHE_TTL_MS : Z := 60000.

Definition QUERY_TIMEOUT_MS : nat := 2000.

Definition isCacheFresh : CB bool :=
  sc ← gets sessionCache;
  match sc with
  | None => mret false
  | Some c =>
      now ← Date_now;
      mret (now - cc_fetchedAt c <? CACHE_TTL_MS)
  end.

(** [a.k1 ?? b.k2 ?? ... ?? dflt], each alternative an object and the
    property read from it. *)
Fixpoint coalesce (alts : list (JS.json * string)) (dflt : JS.json) : JS.result JS.json :=
  match alts with
  | [] => JS.Ok dflt
  | (o, k) :: r =>
      v ← JS.get_prop o k;
      match v with
      | None | Some JS.JNull => coalesce r dflt
      | Some x => JS.Ok x
      end
  end.

(** [v ? String(v) : undefined] *)
Definition string_if_truthy (v : option JS.json) : JS.result (option string) :=
  match v with
  | Some x => if JS.truthy v then (s ← JS.ToString x; JS.Ok (Some s)) else JS.Ok None
  | None => JS.Ok None
  end.

(** [items.map(f)] for a callback that may throw. *)
Fixpoint map_result {A B} (f : A -> JS.result B) (l : list A) : JS.result (list B) :=
  match l with
  | [] => JS.Ok []
  | x :: r =>
      y ← f x;
      ys ← map_result f r;
      JS.Ok (y :: ys)
  end.

Definition array_or_empty (raw : JS.json) : list JS.json :=
  match raw with
  | JS.JArr items => items
  | _ => []
  end.

(** The callback of [items.map] in [fetchRecentSessions]. *)
Definition session_of_item (s : JS.json) : JS.result SessionMeta :=
  id ← coalesce [(s, "id"); (s, "conversation_id"); (s, "session_id")] (JS.JStr "")
       ≫= JS.ToString;
  tool ← coalesce [(s, "tool"); (s, "provider")] (JS.JStr "unknown") ≫= JS.ToString;
  project ← coalesce [(s, "project"); (s, "project_path")] (JS.JStr "") ≫= JS.ToString;
  branch ← JS.get_prop s "branch" ≫= string_if_truthy;
  startedAt ← coalesce [(s, "started_at"); (s, "startedAt"); (s, "first_event");
                        (s, "timestamp")] (JS.JStr "") ≫= JS.ToString;
  duration_minutes ← JS.get_prop s "duration_minutes";
  duration ← match duration_minutes with
             | None | Some JS.JNull => JS.get_prop s "duration" ≫= string_if_truthy
             | Some m => t ← JS.ToString m; JS.Ok (Some (t +:+ "m"))
             end;
  summary ← JS.get_prop s "summary" ≫= string_if_truthy;
  JS.Ok {| sm_id := id; sm_tool := tool; sm_project := project; sm_branch := branch;
           sm_startedAt := startedAt; sm_duration := duration; sm_summary := summary |}.

Definition timed_out : RunResult := {| stdout := "[]"; stderr := ""; exitCode := 1 |}.

Definition fetchRecentSessions (depth : ContextDepth) : CB (list SessionMeta) :=
  fresh ← isCacheFresh;
  if fresh : bool then
    sc ← gets sessionCache;
    mret (match sc with Some c => cc_sessions c | None => [] end)
  else
    let limit := match depth with minimal => "5" | standard => "10" | deep => "20" end in
    let timeRange := match depth with deep => "7d" | _ => "24h" end in
    p ← run ["query"; "sessions"; "--all"; "--limit"; limit; "--time-range"; timeRange;
             "--format"; "json"] t_fast false None;
    result ← withTimeout p QUERY_TIMEOUT_MS timed_out;
    if negb (exitCode result =? 0) then mret []
    else
      try_catchM
        (raw ← lift (extractJSON (stdout result));
         found ← lift (map_result session_of_item (array_or_empty raw));
         now ← Date_now;
         _ ← modify (with_sessionCache (Some {| cc_sessions := found; cc_fetchedAt := now |}));
         mret found)
        (mret []).

(** The callback of [.map] in [runKBSearch]. *)
Definition match_of_entry (entry : JS.json) : JS.result KBMatch :=
  document ← JS.get_prop entry "document";
  let doc := JS.nullish document (JS.JObj []) (fun v => v) in
  id ← coalesce [(doc, "id"); (entry, "id")] (JS.JStr "") ≫= JS.ToString;
  category ← (c ← coalesce [(doc, "category"); (entry, "category")] JS.JNull;
              string_if_truthy (Some c));
  text ← coalesce [(doc, "content"); (entry, "snippet"); (entry, "content");
                   (entry, "text")] (JS.JStr "") ≫= JS.ToString;
  JS.Ok {| kb_id := id; kb_category := category; kb_text := text |}.

(** What [runKBSearch] makes of the standard output of a successful run. *)
Definition matches_of_stdout (out : string) : JS.result (list KBMatch) :=
  raw ← extractJSON out;
  map_result match_of_entry (JS.array_slice0 (array_or_empty raw) 5).

Definition runKBSearch (term : string) : CB (list KBMatch) :=
  p ← run ["-beta"; "kb"; "search"; term; "--format"; "json"] t_fast false None;
  result ← withTimeout p QUERY_TIMEOUT_MS timed_out;
  if negb (exitCode result =? 0) then mret []
  else try_catchM (lift (matches_of_stdout (stdout result))) (mret []).

(** ** context-builder.ts: the multi-keyword search *)

(** The loop that fills [docMap]: one pass over the results of one keyword. *)
Fixpoint count_matches (docMap : list (string * (KBMatch * Z))) (results : list KBMatch)
  : list (string * (KBMatch * Z)) :=
  match results with
  | [] => docMap
  | m :: r =>
      match JS.omap_get docMap (kb_id m) with
      | Some (first, freq) =>
          count_matches (JS.omap_set docMap (kb_id m) (first, freq + 1)) r
      | None => count_matches (JS.omap_set docMap (kb_id m) (m, 1)) r
      end
  end.

Definition fill_docMap (allResults : list (list KBMatch)) : list (string * (KBMatch * Z)) :=
  fold_left count_matches allResults [].

Definition rank_docMap (docMap : list (string * (KBMatch * Z))) : list (KBMatch * Z) :=
  JS.sort (fun a b => snd b - snd a) (map snd docMap).

Definition merge_results (allResults : list (list KBMatch)) : list KBMatch :=
  map fst (JS.array_slice0 (rank_docMap (fill_docMap allResults)) 5).

Definition searchKB (query : string) : CB (list KBMatch) :=
  cached ← get kb query;
  match cached with
  | Some hit => mret hit
  | None =>
      let keywords := extractSearchKeywords query 3 in
      allResults ← all_map runKBSearch keywords;
      let merged := merge_results allResults in
      _ ← (if (0 <? List.length merged)%nat then set kb query merged else mret tt);
      mret merged
  end.

(** ** context-builder.ts: formatting *)

Definition nonempty (s : string) : bool := negb (String.eqb s "").

(** A non-negative integer in a template literal. *)
Definition show_int (z : Z) : string := JS.dec_of_N (Z.to_N z).

Definition formatTimestamp (iso : string) : CB string :=
  if negb (nonempty iso) then mret "recently"
  else
    try_catchM
      (date ← gets (fun w => date_parse w iso);
       match date with
       | None => mret "recently"
       | Some t =>
           now ← Date_now;
           let diffMs := now - t in
           let diffMin := diffMs / 60000 in
           if diffMin <? 0 then mret "recently"
           else if diffMin <? 60 then mret (show_int diffMin +:+ "m ago")
           else
             let diffHours := diffMin / 60 in
             if diffHours <? 24 then mret (show_int diffHours +:+ "h ago")
             else
               let diffDays := diffHours / 24 in
               mret (show_int diffDays +:+ "d ago")
       end)
      (mret "recently").

Definition truthy_opt (s : option string) : bool :=
  match s with
  | Some x => nonempty x
  | None => false
  end.

Definition opt_text (s : option string) : string := default "" s.

Fixpoint map_cb {A B} (f : A -> CB B) (l : list A) : CB (list B) :=
  match l with
  | [] => mret []
  | x :: r =>
      y ← f x;
      ys ← map_cb f r;
      mret (y :: ys)
  end.

Definition formatSessions (found : list SessionMeta) (depth : ContextDepth) : CB string :=
  match found with
  | [] => mret ""
  | _ =>
      lines ← map_cb (fun s =>
        time ← formatTimestamp (sm_startedAt s);
        let dur := if truthy_opt (sm_duration s)
                   then " (" +:+ opt_text (sm_duration s) +:+ ")" else "" in
        let branch := if truthy_opt (sm_branch s)
                      then ", branch: " +:+ opt_text (sm_branch s) else "" in
        let summary :=
          match depth with
          | deep => if truthy_opt (sm_summary s)
                    then nl +:+ "    " +:+ opt_text (sm_summary s) else ""
          | _ => ""
          end in
        let project := if nonempty (sm_project s) then sm_project s
                       else "unknown project" in
        mret ("- " +:+ time +:+ ": " +:+ sm_tool s +:+ " on " +:+ project
                +:+ dur +:+ branch +:+ summary)) found;
      mret ("Recent Activity:" +:+ nl +:+ JS.join nl lines)
  end.

Definition preview (text : string) : string :=
  if (200 <? String.length text)%nat then JS.slice_to text 200 +:+ "..." else text.

Definition format_match (r : KBMatch) : string :=
  let cat := if truthy_opt (kb_category r)
             then "[" +:+ opt_text (kb_category r) +:+ "] " else "" in
  "- " +:+ cat +:+ preview (kb_text r).

Definition formatKBResults (results : list KBMatch) : string :=
  match results with
  | [] => ""
  | _ => "Relevant Knowledge:" +:+ nl +:+ JS.join nl (map format_match results)
  end.

Definition detectActiveProject (found : list SessionMeta) : string :=
  match found with
  | [] => ""
  | recent :: _ =>
      let branch := if truthy_opt (sm_branch recent)
                    then " (branch: " +:+ opt_text (sm_branch recent) +:+ ")" else "" in
      if nonempty (sm_project recent)
      then "Active Project: " +:+ sm_project recent +:+ branch else ""
  end.

(** ** context-builder.ts: the public entry points *)

Definition buildContext (prompt : string) (depth : ContextDepth) : CB (option string) :=
  ok ← ensureInstalled;
  if negb ok then mret None
  else
    let wants_kb :=
      match depth with
      | minimal => false
      | _ => (5 <=? String.length prompt)%nat
      end in
    '(found, kbResults) ← all_pair (fetchRecentSessions depth)
                                   (if wants_kb then searchKB prompt else mret []);
    match found, kbResults with
    | [], [] => mret None
    | _, _ =>
        sessionsBlock ← formatSessions found depth;
        let kbBlock := formatKBResults kbResults in
        let projectLine := detectActiveProject found in
        let parts := List.filter nonempty [sessionsBlock; kbBlock; projectLine] in
        match parts with
        | [] => mret None
        | _ => mret (Some ("<tribe-context>" +:+ nl +:+ JS.join (nl +:+ nl) parts
                             +:+ nl +:+ "</tribe-context>"))
        end
    end.


End Core.

(** ** tribe-runner.ts: the helpers on top of [run] *)

(** [s.includes(sub)] *)
Fixpoint includes (s sub : string) : bool :=
  JS.startsWith s sub
  || match s with
     | String _ r => includes r sub
     | EmptyString => false
     end.

Inductive AuthStatus : Type := authenticated | not_authenticated | not_installed.

(** [runJson] and [runText] throw an [Error] of their own making, with a
    message: it is returned here as [Failed message], while a rejection of
    [run] passes through as such. *)
Inductive outcome (A : Type) : Type :=
| Done (a : A)
| Failed (message : string).
Arguments Done {A} a.
Arguments Failed {A} message.

(** An integer in a template literal. *)
Definition show_exit (z : Z) : string :=
  if z <? 0 then "-" +:+ JS.dec_of_N (Z.abs_N z) else JS.dec_of_N (Z.to_N z).

(** [`${args[0]}`] *)
Definition subcommand (args : list string) : string :=
  match args with
  | a :: _ => a
  | [] => "undefined"
  end.

Definition failure_message (args : list string) (result : RunResult) : string :=
  "tribe " +:+ subcommand args +:+ " failed (exit " +:+ show_exit (exitCode result)
    +:+ "): " +:+ (if nonempty (stderr result) then stderr result else stdout result).

Section RunnerHelpers.
Context {V : Type}.

Definition checkAuthStatus : M V AuthStatus :=
  ok ← ensureInstalled;
  if negb ok then mret not_installed
  else
    try_catchM
      (p ← run ["status"] t_fast false None;
       result ← await p;
       let out := stdout result in
       if includes out "Not logged in" || includes out "Not authenticated"
          || includes out "Skip-auth"
       then mret not_authenticated
       else mret authenticated)
      (mret not_authenticated).

Definition runJson (args : list string) (timeout : TimeoutCategory) (signal : option nat)
  : M V (outcome JS.json) :=
  p ← run args timeout true signal;
  result ← await p;
  if negb (exitCode result =? 0) then mret (Failed (failure_message args result))
  else
    match JS.JSON_parse (stdout result) with
    | JS.Ok v => mret (Done v)
    | JS.Throw _ =>
        mret (Failed ("tribe " +:+ subcommand args +:+ " returned non-JSON output: "
                        +:+ JS.slice_to (stdout result) 200))
    end.

Definition runText (args : list string) (timeout : TimeoutCategory) (signal : option nat)
  : M V (outcome string) :=
  p ← run args timeout false signal;
  result ← await p;
  if negb (exitCode result =? 0) then mret (Failed (failure_message args result))
  else mret (Done (stdout result)).
End RunnerHelpers.

(** ** index.ts: context injection *)



(** ** index.ts: the guard around every tool *)

Definition noAuthRequired : list string :=
  ["tribe_status"; "tribe_version"; "tribe_enable"; "tribe_disable"; "tribe_auth_status"].

Definition not_installed_text : string :=
  "TRIBE CLI is not installed. Use the tribe_setup tool to install it automatically.".

Definition not_authenticated_text : string :=
  "TRIBE CLI is not authenticated." +:+ nl +:+ nl
  +:+ "To authenticate, run this in your terminal: tribe login" +:+ nl +:+ nl
  +:+ "Or use the tribe_setup tool for guided setup." +:+ nl +:+ nl
  +:+ "Without login, TribeCode works in local-only mode (basic session data).".

(** The [execute] with which a tool is registered: [execute] is the tool's
    own, and a refusal is the text that goes into [textResult]. *)
Definition guarded_execute {V A} (name : string) (execute : M V A) : M V (A + string) :=
  if String.eqb name "tribe_setup" then r ← execute; mret (inl r)
  else
    status ← checkAuthStatus;
    match status with
    | not_installed => mret (inr not_installed_text)
    | not_authenticated =>
        if negb (existsb (String.eqb name) noAuthRequired)
        then mret (inr not_authenticated_text)
        else r ← execute; mret (inl r)
    | authenticated => r ← execute; mret (inl r)
    end.

(** * Notions of the specification *)

(** The first whitespace-delimited token of a text: the first maximal run of
    characters that are not white space, if there is one. *)
Definition first_token (raw : string) : option string :=
  head (List.filter nonempty (JS.split_ws raw)).

(** Where the first [[] or [{] of a text is. *)
Definition is_bracket (c : ascii) : bool :=
  Ascii.eqb c "["%char || Ascii.eqb c "{"%char.

Fixpoint first_bracket (s : string) : option nat :=
  match s with
  | EmptyString => None
  | String c r => if is_bracket c then Some 0%nat else S <$> first_bracket r
  end.


(** An upstream that answers every search at once with the same output, and
    one such output that holds a single entry with a content of [n]
    characters. *)
Definition reply_world (out : string) : World (list KBMatch) :=
  {| clock := fun _ => 0; ticks := 0; installed := true;
     exec := fun _ _ => ExecCallback 0 None out ""; spawned := 0;
     timer_first := true; date_parse := fun _ => None; effects := [];
     sessionCache := None; cache := empty_cache; disk := fun _ => NoFile |}.

Fixpoint a_run (n : nat) (tail : string) : string :=
  match n with
  | O => tail
  | S k => String "a"%char (a_run k tail)
  end.

(** A JSON text, written with an apostrophe for every double quote. *)
Definition json_text (s : string) : string :=
  JS.map_chars (fun c => if Ascii.eqb c "'"%char then JS.dquote else c) s.







(** What the persisted tier holds for a cache key at a time [now]: the value
    of an entry of a version-1 file that has not expired. *)
Definition persisted_hit {V} (f : file V) (ck : string) (now : Z) : option V :=
  match f with
  | Stored d =>
      if version d =? 1 then
        match entries d !! ck with
        | Some e => if now <? expiresAt e then Some (value e) else None
        | None => None
        end
      else None
  | _ => None
  end.

(** A world whose cache holds one fresh entry in the fast tier. *)
Definition warm_world : World nat :=
  {| clock := fun _ => 50; ticks := 0; installed := true;
     exec := fun _ _ => ExecNever; spawned := 0;
     timer_first := true; date_parse := fun _ => None; effects := [];
     sessionCache := None;
     cache := {| l1 := {[ "kb:q" := {| value := 7%nat; expiresAt := 100 |} ]};
                 l2Dirty := ∅; l2Timers := ∅; l2Loaded := ∅ |};
     disk := fun _ => NoFile |}.

(** The existing persisted contents of a namespace as a flush takes them: a
    missing file, a file that does not parse and a file of another version
    count as empty. *)
Definition existing_entries {V} (f : file V) : gmap string (CacheEntry V) :=
  match f with
  | Stored d => if version d =? 1 then entries d else ∅
  | _ => ∅
  end.

(** A computation that always returns a value, and one that may throw but
    never hangs. *)
Definition returns {V A} (m : M V A) : Prop :=
  forall w, exists a w', m w = (Returns a, w').


(** A promise that does not reject. *)
Definition never_rejects {A} (p : promise A) : Prop :=
  forall t e, p <> Settles t (Rejected e).

(** A schedule that the event loop allows: the debounce timer fires and the
    flush reads the storage unit; while the flush is suspended [invalidate]
    starts; the flush resumes and writes; [invalidate] resumes and completes;
    then [get] runs. *)
Definition invalidate_during_flush {V} (md5_hex : string -> string)
    (ns : CacheNamespace) (key : string) : M V (option V) :=
  pending ← l2_timer_begins ns;
  _ ← invalidate_begins ns;
  _ ← match pending with
      | Some existing => flushL2_resumes ns existing
      | None => mret tt
      end;
  _ ← invalidate_resumes ns;
  get md5_hex ns key.

(** A value is cached and persisted by the debounced flush; a later [set]
    schedules another flush, and [invalidate] overlaps with it. *)
Definition stale_read_scenario : M nat (option nat) :=
  _ ← set (fun key => key) kb "q" 7%nat;
  _ ← l2_timer_fires kb;
  _ ← set (fun key => key) kb "r" 8%nat;
  invalidate_during_flush (fun key => key) kb "q".

(** An empty cache, no storage unit, a clock that advances by one millisecond
    at each reading. *)
Definition cold_world_of (V : Type) : World V :=
  {| clock := fun n => 1000 + Z.of_nat n; ticks := 0; installed := true;
     exec := fun _ _ => ExecNever; spawned := 0;
     timer_first := true; date_parse := fun _ => None; effects := [];
     sessionCache := None; cache := empty_cache; disk := fun _ => NoFile |}.

Definition cold_world : World nat := cold_world_of nat.

(** A run of [set] calls on one namespace, one after the other, with no
    timer firing in between. *)
Fixpoint set_each {V} (md5_hex : string -> string) (ns : CacheNamespace)
    (kvs : list (string * V)) : M V unit :=
  match kvs with
  | [] => mret tt
  | (key, v) :: r => _ ← set md5_hex ns key v; set_each md5_hex ns r
  end.

(** The exit code that [run] reports for what [execFile] hands to its
    callback. *)
Definition exit_code (error : option ExecError) : Z :=
  match error with
  | Some {| err_code := Some c |} => c
  | Some {| err_code := None |} => 1
  | None => 0
  end.

(** What an adapter has in hand after
    [withTimeout(run(args, { timeout: "fast" }), QUERY_TIMEOUT_MS, fallback)]:
    the result of the child process when its callback runs before the timer
    does, the fallback otherwise; and the world after that call. *)
Definition query_result {V} (w : World V) (args : list string) : RunResult :=
  match exec w (spawned w) args with
  | ExecCallback after error out err =>
      if ((after <? QUERY_TIMEOUT_MS) || (after =? QUERY_TIMEOUT_MS) && negb (timer_first w))%nat
      then {| stdout := out; stderr := err; exitCode := exit_code error |}
      else timed_out
  | ExecNever => timed_out
  end.

Definition after_query {V} (args : list string) (w : World V) : World V :=
  with_effects (effects w ++ [ExecFile args 15000; SetTimeout QUERY_TIMEOUT_MS; ClearTimeout])
    (with_spawned (S (spawned w)) w).

(** What [fetchRecentSessions] makes of the standard output of a successful
    run. *)
Definition sessions_of_stdout (out : string) : JS.result (list SessionMeta) :=
  raw ← extractJSON out;
  map_result session_of_item (array_or_empty raw).

(** Every character of a string passes a test; the characters that a term
    out of the filter is made of. *)
Fixpoint all_chars (P : ascii -> bool) (s : string) : bool :=
  match s with
  | EmptyString => true
  | String c r => P c && all_chars P r
  end.

Definition is_term_char (c : ascii) : bool :=
  JS.is_lower c || JS.is_digit c || Ascii.eqb c "-"%char.

(** A machine without the CLI. *)
Definition bare_world : World nat :=
  {| clock := fun _ => 0; ticks := 0; installed := false;
     exec := fun _ _ => ExecNever; spawned := 0;
     timer_first := true; date_parse := fun _ => None; effects := [];
     sessionCache := None; cache := empty_cache; disk := fun _ => NoFile |}.

(** * Properties *)

#[local] Arguments Ascii.eqb : simpl never.

(** ** The repository's unit tests, on the model

    [test-components.ts], sections 2, 3, 3b and 10.  The advisory lines of
    tests 2.3 and 2.4 are written in ASCII; the clock of [cold_world]
    advances by one millisecond at each reading. *)

Example test_2_1_clean_array :
  extractJSON "[1,2,3]"
  = JS.Ok (JS.JArr [JS.JNum {| JS.num_neg := false; JS.num_mant := 1; JS.num_exp := 0 |};
                    JS.JNum {| JS.num_neg := false; JS.num_mant := 2; JS.num_exp := 0 |};
                    JS.JNum {| JS.num_neg := false; JS.num_mant := 3; JS.num_exp := 0 |}]).
Proof. vm_compute. reflexivity. Qed.

Example test_2_2_clean_object :
  extractJSON (json_text "{'a':1}")
  = JS.Ok (JS.JObj [("a", JS.JNum {| JS.num_neg := false; JS.num_mant := 1;
                                     JS.num_exp := 0 |})]).
Proof. vm_compute. reflexivity. Qed.

Example test_2_3_after_tip :
  extractJSON (json_text ("Tip: Directory initialized" +:+ nl +:+ "[{'id':'abc'}]"))
  = JS.Ok (JS.JArr [JS.JObj [("id", JS.JStr "abc")]]).
Proof. vm_compute. reflexivity. Qed.

Example test_2_4_after_warning :
  extractJSON (json_text ("Warning:  API failed (using local cache): not authenticated"
                          +:+ nl +:+ "[{'id':'xyz'}]"))
  = JS.Ok (JS.JArr [JS.JObj [("id", JS.JStr "xyz")]]).
Proof. vm_compute. reflexivity. Qed.

Example test_2_5_no_json :
  extractJSON "No results found." = JS.Throw (JS.SyntaxError "No JSON found in output").
Proof. vm_compute. reflexivity. Qed.

Example test_3_keyword :
  extractSearchKeyword "how do I implement authentication" = Some "authentication"
  /\ extractSearchKeyword "how do I use the thing" = Some "thing"
  /\ extractSearchKeyword "implement add create database" = Some "database"
  /\ extractSearchKeyword "how do I" = Some "how"
  /\ extractSearchKeyword "kubernetes" = Some "kubernetes"
  /\ extractSearchKeyword "what's the @best #approach?" = Some "approach".
Proof. vm_compute. repeat split. Qed.

Example test_3b_keywords :
  extractSearchKeywords "how do I implement authentication with middleware" 3
    = ["authentication"; "middleware"]
  /\ extractSearchKeywords "implement authentication middleware" 3
    = ["authentication"; "middleware"]
  /\ extractSearchKeywords "authentication middleware database controller service" 2
    = ["authentication"; "middleware"]
  /\ extractSearchKeywords "auth auth auth database database" 3 = ["database"; "auth"]
  /\ extractSearchKeywords "how do I the" 3 = ["how"]
  /\ extractSearchKeywords "kubernetes" 3 = ["kubernetes"].
Proof. vm_compute. repeat split. Qed.

Example test_10_1_to_10_4 :
  ((_ ← set (fun key => key) kb "test-key" "hello";
    val1 ← get (fun key => key) kb "test-key";
    val2 ← get (fun key => key) kb "test-key";
    val3 ← get (fun key => key) kb "nonexistent-key";
    _ ← set (fun key => key) kb "to-invalidate" "value";
    _ ← invalidate kb;
    val4 ← get (fun key => key) kb "to-invalidate";
    mret (val1, val2, val3, val4)) (cold_world_of string)).1
  = Returns (Some "hello", Some "hello", None, None).
Proof. vm_compute. reflexivity. Qed.

Example test_10_5_invalidateAll :
  ((_ ← set (fun key => key) kb "a" 1%nat;
    _ ← set (fun key => key) sessions "b" 2%nat;
    _ ← set (fun key => key) search "c" 3%nat;
    _ ← invalidateAll;
    val5a ← get (fun key => key) kb "a";
    val5b ← get (fun key => key) sessions "b";
    val5c ← get (fun key => key) search "c";
    mret (val5a, val5b, val5c)) cold_world).1
  = Returns (None, None, None).
Proof. vm_compute. reflexivity. Qed.

Example test_10_7_namespaces :
  ((_ ← set (fun key => key) kb "shared-key" "kb-value";
    _ ← set (fun key => key) sessions "shared-key" "session-value";
    kbVal ← get (fun key => key) kb "shared-key";
    sessVal ← get (fun key => key) sessions "shared-key";
    mret (kbVal, sessVal)) (cold_world_of string)).1
  = Returns (Some "kb-value", Some "session-value").
Proof. vm_compute. reflexivity. Qed.

(** ** Lists, sorting and insertion-ordered maps *)

Section ListFacts.
Context {A : Type}.

Lemma sort_insert_perm (cmp : A -> A -> Z) (x : A) (l : list A) :
  JS.sort_insert cmp x l ≡ₚ x :: l.
Proof.
  induction l as [|y r IH]; simpl; [done|].
  destruct (cmp x y <=? 0); [done|].
  rewrite IH. apply Permutation_swap.
Qed.

Lemma sort_perm (cmp : A -> A -> Z) (l : list A) : JS.sort cmp l ≡ₚ l.
Proof.
  induction l as [|x r IH]; simpl; [done|].
  by rewrite sort_insert_perm, IH.
Qed.

Lemma array_slice0_length (l : list A) (e : Z) :
  0 <= e -> length (JS.array_slice0 l e) = Nat.min (Z.to_nat e) (length l).
Proof.
  intros He. unfold JS.array_slice0.
  destruct (e <? 0) eqn:Hneg; [lia|].
  rewrite length_take. lia.
Qed.

Lemma sort_insert_sorted (key : A -> Z) (x : A) (l : list A) :
  StronglySorted (fun a b => key b <= key a) l ->
  StronglySorted (fun a b => key b <= key a) (JS.sort_insert (fun a b => key b - key a) x l).
Proof.
  induction 1 as [|y r Hr IH Hy]; simpl.
  - repeat constructor.
  - destruct (Z.leb_spec (key y - key x) 0) as [Hle|Hgt].
    + constructor; [by constructor|]. constructor; [lia|].
      eapply Forall_impl; [exact Hy|]. simpl. intros; lia.
    + constructor; [done|].
      rewrite sort_insert_perm. constructor; [lia | done].
Qed.

Lemma sort_sorted (key : A -> Z) (l : list A) :
  StronglySorted (fun a b => key b <= key a) (JS.sort (fun a b => key b - key a) l).
Proof.
  induction l as [|x r IH]; simpl; [constructor|]. by apply sort_insert_sorted.
Qed.

Lemma StronglySorted_lookup (R : A -> A -> Prop) (l : list A) (i j : nat) (a b : A) :
  StronglySorted R l -> (i < j)%nat -> l !! i = Some a -> l !! j = Some b -> R a b.
Proof.
  intros Hs. revert i j. induction Hs as [|x r Hr IH Hx]; intros i j Hij Hi Hj.
  - done.
  - destruct j as [|j]; [lia|]. destruct i as [|i]; simpl in *.
    + injection Hi as <-. rewrite Forall_forall in Hx. apply Hx.
      by eapply list_elem_of_lookup_2.
    + eapply IH; [|done..]. lia.
Qed.

Lemma StronglySorted_take (R : A -> A -> Prop) (l : list A) (n : nat) :
  StronglySorted R l -> StronglySorted R (take n l).
Proof.
  intros Hs. revert n. induction Hs as [|x r Hr IH Hx]; intros [|n]; simpl; try constructor.
  - apply IH.
  - rewrite Forall_forall in *. intros y Hy. apply Hx.
    by eapply subseteq_take.
Qed.

Lemma array_slice0_prefix (l : list A) (e : Z) :
  exists n, JS.array_slice0 l e = take n l.
Proof. unfold JS.array_slice0. eauto. Qed.
End ListFacts.

Section OrderedMapFacts.
Context {V : Type}.
Implicit Types m : list (string * V).


Lemma omap_set_keys_present m k v :
  k ∈ map fst m -> map fst (JS.omap_set m k v) = map fst m.
Proof.
  induction m as [|[k' v'] r IH]; simpl.
  - intros H. by apply elem_of_nil in H.
  - intros H. destruct (String.eqb_spec k' k) as [->|Hne]; [done|].
    simpl. f_equal. apply IH. apply elem_of_cons in H as [?|?]; congruence.
Qed.

Lemma omap_set_keys_fresh m k v :
  k ∉ map fst m -> map fst (JS.omap_set m k v) = map fst m ++ [k].
Proof.
  induction m as [|[k' v'] r IH]; simpl; [done|].
  intros H. apply not_elem_of_cons in H as [Hne Hr].
  destruct (String.eqb_spec k' k) as [->|_]; [done|].
  simpl. f_equal. by apply IH.
Qed.

Lemma omap_set_NoDup m k v :
  NoDup (map fst m) -> NoDup (map fst (JS.omap_set m k v)).
Proof.
  intros Hnd. destruct (decide (k ∈ map fst m)) as [Hin|Hout].
  - by rewrite omap_set_keys_present.
  - rewrite omap_set_keys_fresh by done.
    apply NoDup_app. split; [done|]. split; [|apply NoDup_singleton].
    intros x Hx Hk. apply list_elem_of_singleton in Hk as ->. done.
Qed.

Lemma omap_set_nonempty m k v : JS.omap_set m k v <> [].
Proof. destruct m as [|[k' v'] r]; simpl; [done|]. by destruct (String.eqb k' k). Qed.


End OrderedMapFacts.

(** ** The Term Extractor *)

Lemma dedupe_scores_NoDup scored : forall seen,
  NoDup (map fst seen) -> NoDup (map fst (dedupe_scores seen scored)).
Proof.
  induction scored as [|[word score] r IH]; intros seen Hnd; simpl; [done|].
  destruct (JS.omap_get seen word) as [existing|].
  - destruct (existing <? score); [|by apply IH].
    apply IH. by apply omap_set_NoDup.
  - apply IH. by apply omap_set_NoDup.
Qed.

Lemma dedupe_scores_nonempty scored : forall seen,
  seen <> [] \/ scored <> [] -> dedupe_scores seen scored <> [].
Proof.
  induction scored as [|[word score] r IH]; intros seen H; simpl.
  - by destruct H.
  - destruct (JS.omap_get seen word) as [existing|] eqn:Hget.
    + assert (seen <> []) by (intros ->; discriminate).
      destruct (existing <? score); apply IH; left; [apply omap_set_nonempty | done].
    + apply IH. left. apply omap_set_nonempty.
Qed.

Lemma score_words_nonempty total i ws : ws <> [] -> score_words total i ws <> [].
Proof. by destruct ws. Qed.

(** ** Strings *)

Lemma str_app_nil (t : string) : "" +:+ t = t.
Proof. reflexivity. Qed.

Lemma str_app_cons (c : ascii) (s t : string) : String c s +:+ t = String c (s +:+ t).
Proof. reflexivity. Qed.

Lemma str_app_nil_r (s : string) : s +:+ "" = s.
Proof. induction s as [|c r IH]; [done|]. by rewrite str_app_cons, IH. Qed.

Lemma str_app_assoc (s t u : string) : (s +:+ t) +:+ u = s +:+ (t +:+ u).
Proof. induction s as [|c r IH]; [done|]. by rewrite !str_app_cons, IH. Qed.


Lemma split_ws_go_head (s : string) : forall cur,
  exists t rest, JS.split_ws_go false cur s = (cur +:+ t) :: rest.
Proof.
  induction s as [|c r IH]; intros cur; simpl.
  - exists "", []. by rewrite str_app_nil_r.
  - destruct (JS.is_ws c).
    + exists "", (JS.split_ws_go true "" r). by rewrite str_app_nil_r.
    + destruct (IH (cur +:+ String c "")) as (t & rest & ->).
      exists (String c t), rest. f_equal.
      by rewrite str_app_assoc.
Qed.

Lemma split_ws_after_run (s : string) :
  List.filter nonempty (JS.split_ws_go true "" s) = List.filter nonempty (JS.split_ws s).
Proof.
  unfold JS.split_ws. destruct s as [|c r]; simpl; [done|].
  by destruct (JS.is_ws c).
Qed.

Lemma split_ws_trimStart (s : string) :
  List.filter nonempty (JS.split_ws (JS.trimStart s)) = List.filter nonempty (JS.split_ws s).
Proof.
  induction s as [|c r IH]; [done|].
  simpl. destruct (JS.is_ws c) eqn:Hc; [|done].
  rewrite IH. unfold JS.split_ws at 2. simpl. rewrite Hc. simpl.
  symmetry. apply split_ws_after_run.
Qed.

Lemma split_ws_trimEnd_head (s : string) : forall cur,
  head (JS.split_ws_go false cur (JS.trimEnd s)) = head (JS.split_ws_go false cur s).
Proof.
  induction s as [|c r IH]; intros cur; [done|].
  simpl. destruct (JS.is_ws c) eqn:Hc.
  - destruct (JS.trimEnd r); simpl; [done|]. by rewrite Hc.
  - rewrite <- IH. destruct (JS.trimEnd r); simpl; by rewrite Hc.
Qed.

Lemma trimStart_shape (s : string) :
  JS.trimStart s = "" \/ exists c r, JS.trimStart s = String c r /\ JS.is_ws c = false.
Proof.
  induction s as [|c r IH]; simpl; [by left|].
  destruct (JS.is_ws c) eqn:Hc; [done|]. right. eauto.
Qed.

Lemma fallback_keyword_first_token (prompt : string) :
  fallback_keyword prompt = default prompt (first_token prompt).
Proof.
  unfold fallback_keyword, first_token, JS.trim.
  rewrite <- split_ws_trimStart.
  pose proof (split_ws_trimEnd_head (JS.trimStart prompt) "") as Hhead.
  fold (JS.split_ws (JS.trimEnd (JS.trimStart prompt))) in Hhead.
  fold (JS.split_ws (JS.trimStart prompt)) in Hhead.
  destruct (trimStart_shape prompt) as [Hempty | (c & r & Hshape & Hc)].
  - rewrite Hempty in *. reflexivity.
  - rewrite Hshape in *.
    assert (exists t rest, JS.split_ws (String c r) = String c t :: rest) as (t & rest & Hsplit).
    { unfold JS.split_ws. simpl. rewrite Hc, str_app_nil.
      destruct (split_ws_go_head r (String c "")) as (t & rest & ->). eauto. }
    rewrite Hsplit in *.
    destruct (JS.split_ws (JS.trimEnd (String c r))) as [|w ws]; [done|].
    injection Hhead as ->. reflexivity.
Qed.

(** C7, as the code has it.  For every input string and every requested
    count of at least one, [extractSearchKeywords] returns at least one and
    at most [count] terms, no term twice; and when no token survives the
    filter it returns exactly the first whitespace-delimited token of the raw
    input, or the raw input itself when it has no such token. *)
Theorem extractSearchKeywords_bounds (prompt : string) (count : Z) :
  1 <= count ->
  let terms := extractSearchKeywords prompt count in
  (1 <= length terms)%nat
  /\ Z.of_nat (length terms) <= count
  /\ NoDup terms
  /\ (candidate_words prompt = [] -> terms = [default prompt (first_token prompt)]).
Proof.
  intros Hcount. unfold extractSearchKeywords.
  destruct (candidate_words prompt) as [|w ws] eqn:Hwords; cbv zeta.
  - rewrite fallback_keyword_first_token. simpl.
    split; [lia|]. split; [lia|]. split; [apply NoDup_singleton | done].
  - match goal with |- context [dedupe_scores [] ?sc] => set (seen := dedupe_scores [] sc) end.
    match goal with |- context [JS.sort ?f seen] => set (unique := map fst (JS.sort f seen)) end.
    assert (Hperm : unique ≡ₚ map fst seen).
    { unfold unique. by rewrite sort_perm. }
    assert (Hnd : NoDup unique).
    { rewrite Hperm. apply dedupe_scores_NoDup. apply NoDup_nil_2. }
    assert (Hlen : (1 <= length unique)%nat).
    { rewrite Hperm, length_map.
      assert (seen <> []) as Hne by (apply dedupe_scores_nonempty; by right).
      destruct seen; [done | simpl; lia]. }
    rewrite array_slice0_length by lia.
    destruct (array_slice0_prefix unique count) as [n Hn].
    split; [lia|]. split; [lia|]. split; [|done].
    rewrite Hn. exact (sublist_NoDup _ _ Hnd (sublist_take _ _)).
Qed.

Lemma extractSearchKeywords_bounds_witness :
  1 <= 3 /\
  (1 <= length (extractSearchKeywords "how do I implement authentication with middleware" 3))%nat.
Proof.
  split; [lia|].
  apply (extractSearchKeywords_bounds "how do I implement authentication with middleware" 3).
  lia.
Defined.

(** C7 as stated fails: asked for zero terms the extractor returns none for
    a non-empty input, and for an input of white space only it returns the
    input, which is not a whitespace-delimited token of it. *)
Lemma extractSearchKeywords_counterexample :
  "kubernetes" <> ""
  /\ extractSearchKeywords "kubernetes" 0 = []
  /\ candidate_words "   " = []
  /\ first_token "   " = None
  /\ extractSearchKeywords "   " 3 = ["   "].
Proof. repeat split; done. Qed.

(** ** Tolerant JSON extraction *)

Lemma indexOf_char_lt (s : string) (c : ascii) (i : nat) :
  JS.indexOf_char s c = Some i -> (i < String.length s)%nat.
Proof.
  revert i. induction s as [|a r IH]; intros i; simpl; [done|].
  destruct (Ascii.eqb a c).
  - intros [= <-]. lia.
  - destruct (JS.indexOf_char r c) as [j|]; [|done].
    intros [= <-]. specialize (IH j eq_refl). lia.
Qed.

Lemma first_bracket_indexOf (s : string) :
  first_bracket s =
    match JS.indexOf_char s "["%char, JS.indexOf_char s "{"%char with
    | Some a, Some o => Some (Nat.min a o)
    | Some a, None => Some a
    | None, Some o => Some o
    | None, None => None
    end.
Proof.
  induction s as [|c r IH]; simpl; [done|].
  unfold is_bracket.
  destruct (Ascii.eqb c "["%char), (Ascii.eqb c "{"%char); simpl;
    rewrite ?IH;
    destruct (JS.indexOf_char r "["%char), (JS.indexOf_char r "{"%char); simpl; done.
Qed.

Lemma startsWith_bracket (s : string) :
  JS.startsWith s "[" || JS.startsWith s "{" = true -> first_bracket s = Some 0%nat.
Proof.
  destruct s as [|c r]; simpl; [done|].
  unfold is_bracket. rewrite (Ascii.eqb_sym c "["%char), (Ascii.eqb_sym c "{"%char).
  destruct (Ascii.eqb "["%char c), (Ascii.eqb "{"%char c); simpl; done.
Qed.

(** C6, as the code has it.  [extractJSON] trims the text, locates its first
    [[] or [{] and hands the text from there on to [JSON.parse], whose value
    or exception is the outcome; with no bracket at all it raises its own
    [SyntaxError]. *)
Theorem extractJSON_first_bracket (out : string) :
  match first_bracket (JS.trim out) with
  | Some i => extractJSON out = JS.JSON_parse (JS.drop_chars i (JS.trim out))
  | None => extractJSON out = JS.Throw (JS.SyntaxError "No JSON found in output")
  end.
Proof.
  unfold extractJSON. set (t := JS.trim out).
  destruct (JS.startsWith t "[" || JS.startsWith t "{") eqn:Hfast.
  { by rewrite (startsWith_bracket t Hfast). }
  rewrite first_bracket_indexOf. unfold JS.indexOf, JS.slice_from.
  destruct (JS.indexOf_char t "["%char) as [a|] eqn:Ha;
    destruct (JS.indexOf_char t "{"%char) as [o|] eqn:Ho;
    try (apply indexOf_char_lt in Ha); try (apply indexOf_char_lt in Ho).
  all: repeat match goal with
       | |- context [?x <=? ?y] => destruct (Z.leb_spec x y); try lia
       | |- context [?x <? ?y] => destruct (Z.ltb_spec x y)
       end; clear Hfast; simpl in *; try lia; try reflexivity.
  all: do 2 f_equal; lia.
Qed.

(** C6 as stated fails: a text with a bracket that is not JSON from that
    bracket on makes [extractJSON] raise. *)
Lemma extractJSON_counterexample :
  first_bracket (JS.trim "No results [found].") = Some 11%nat
  /\ extractJSON "No results [found]." = JS.Throw (JS.SyntaxError "Unexpected token in JSON")
  /\ extractJSON "[" = JS.Throw (JS.SyntaxError "Unexpected token in JSON").
Proof. repeat split; vm_compute; reflexivity. Qed.

(** ** Running a computation *)

Lemma bind_run {V A B} (m : M V A) (f : A -> M V B) (w : World V) :
  (m ≫= f) w = match m w with
               | (Returns a, w') => f a w'
               | (Throws e, w') => (Throws e, w')
               | (Hangs, w') => (Hangs, w')
               end.
Proof. reflexivity. Qed.

Lemma ret_run {V A} (a : A) (w : World V) : (mret a : M V A) w = (Returns a, w).
Proof. reflexivity. Qed.


Lemma try_catchM_run {V A} (body handler : M V A) (w : World V) :
  try_catchM body handler w = match body w with
                              | (Returns a, w') => (Returns a, w')
                              | (Throws _, w') => handler w'
                              | (Hangs, w') => (Hangs, w')
                              end.
Proof. reflexivity. Qed.

Lemma gets_run {V A} (f : World V -> A) (w : World V) : gets f w = (Returns (f w), w).
Proof. reflexivity. Qed.

Lemma modify_run {V} (f : World V -> World V) (w : World V) : modify f w = (Returns tt, f w).
Proof. reflexivity. Qed.

Lemma emit_run {V} (e : effect) (w : World V) :
  emit e w = (Returns tt, with_effects (effects w ++ [e]) w).
Proof. reflexivity. Qed.

Lemma throw_run {V A} (e : JS.exn) (w : World V) : (throw e : M V A) w = (Throws e, w).
Proof. reflexivity. Qed.

Lemma lift_run {V A} (r : JS.result A) (w : World V) :
  lift r w = (match r with JS.Ok a => Returns a | JS.Throw e => Throws e end, w).
Proof. by destruct r. Qed.

Lemma Date_now_run {V} (w : World V) :
  Date_now w = (Returns (clock w (ticks w)), with_ticks (S (ticks w)) w).
Proof. reflexivity. Qed.

Lemma modify_cache_run {V} (f : Cache V -> Cache V) (w : World V) :
  modify_cache f w = (Returns tt, with_cache (f (cache w)) w).
Proof. reflexivity. Qed.

Ltac rewrite_M :=
  rewrite ?bind_run, ?ret_run, ?try_catchM_run, ?gets_run, ?modify_run, ?emit_run,
    ?throw_run, ?lift_run, ?Date_now_run, ?modify_cache_run.

Ltac rewrite_M_in H :=
  rewrite ?bind_run, ?ret_run, ?try_catchM_run, ?gets_run, ?modify_run, ?emit_run,
    ?throw_run, ?lift_run, ?Date_now_run, ?modify_cache_run in H.

Ltac reduce_world :=
  cbn [fst snd with_effects with_spawned with_ticks with_cache with_sessionCache
       with_disk clock ticks installed exec spawned timer_first date_parse effects
       sessionCache cache disk].

Ltac reduce_world_in H :=
  cbn [fst snd with_effects with_spawned with_ticks with_cache with_sessionCache
       with_disk clock ticks installed exec spawned timer_first date_parse effects
       sessionCache cache disk] in H.

Ltac step_M := repeat first [progress rewrite_M | progress reduce_world].

Ltac step_M_in H := repeat first [progress (rewrite_M_in H) | progress (reduce_world_in H)].

(** ** The knowledge adapter and the preview *)

Lemma trimEnd_nonws_end (s : string) (c : ascii) :
  JS.is_ws c = false -> JS.trimEnd (s +:+ String c "") = s +:+ String c "".
Proof.
  intros Hc. induction s as [|a r IH].
  - rewrite str_app_nil. simpl. by rewrite Hc.
  - rewrite str_app_cons. simpl. rewrite IH.
    destruct r; [rewrite str_app_nil | rewrite str_app_cons]; done.
Qed.

Lemma a_run_app (n : nat) (t u : string) : a_run n (t +:+ u) = a_run n t +:+ u.
Proof. induction n as [|k IH]; simpl; [done|]. by rewrite IH, str_app_cons. Qed.















(** ** The multi-keyword merge *)












Section MergeFacts.
Context (allResults : list (list KBMatch)).
Let docMap := fill_docMap allResults.
Let sorted := rank_docMap docMap.









End MergeFacts.




(** ** The two-tier cache *)

Section CacheFacts.
Context (md5_hex : string -> string) {V : Type}.
Implicit Types (w : World V) (ns : CacheNamespace).

Lemma persisted_hit_Some (f : file V) (ck : string) (now : Z) (v : V) :
  persisted_hit f ck now = Some v <->
  exists d e, f = Stored d /\ version d = 1 /\ entries d !! ck = Some e
              /\ now < expiresAt e /\ value e = v.
Proof.
  unfold persisted_hit. split.
  - destruct f as [| |d]; try done.
    destruct (Z.eqb_spec (version d) 1) as [Hv|]; [|done].
    destruct (entries d !! ck) as [e|] eqn:He; [|done].
    destruct (Z.ltb_spec now (expiresAt e)); [|done].
    intros [= <-]. by exists d, e.
  - intros (d & e & -> & -> & -> & Hnow & <-). simpl.
    destruct (Z.ltb_spec now (expiresAt e)); [done | lia].
Qed.

Lemma l2Get_run ns (ck : string) w :
  exists w',
    l2Get ns ck w = (Returns (persisted_hit (disk w ns) ck (clock w (ticks w))), w')
    /\ l1 (cache w') = l1 (cache w) /\ disk w' = disk w /\ clock w' = clock w
    /\ l2Dirty (cache w') = l2Dirty (cache w) /\ l2Timers (cache w') = l2Timers (cache w)
    /\ effects w' = effects w /\ spawned w' = spawned w
    /\ (ticks w' = ticks w \/ ticks w' = S (ticks w))
    /\ (is_Some (persisted_hit (disk w ns) ck (clock w (ticks w))) -> ticks w' = S (ticks w)).
Proof.
  assert (forall w0 : World V,
            exists w',
              try_catchM
                (parsed ← read_disk ns;
                 if negb (version parsed =? 1) then mret None
                 else match entries parsed !! ck with
                      | None => mret None
                      | Some entry =>
                          now ← Date_now;
                          if expiresAt entry <=? now then mret None
                          else mret (Some (value entry))
                      end)
                (mret None) w0
              = (Returns (persisted_hit (disk w0 ns) ck (clock w0 (ticks w0))), w')
              /\ cache w' = cache w0 /\ disk w' = disk w0 /\ clock w' = clock w0
              /\ effects w' = effects w0 /\ spawned w' = spawned w0
              /\ (ticks w' = ticks w0 \/ ticks w' = S (ticks w0))
              /\ (is_Some (persisted_hit (disk w0 ns) ck (clock w0 (ticks w0)))
                  -> ticks w' = S (ticks w0))) as Hread.
  { intros w0. unfold read_disk, persisted_hit. step_M.
    destruct (disk w0 ns) as [| |d] eqn:Hdisk; step_M;
      [eexists; split; [reflexivity|]; rewrite ?Hdisk;
       intuition (by eauto using is_Some_None)..|].
    destruct (Z.eqb_spec (version d) 1); cbn [negb]; step_M;
      [|eexists; split; [reflexivity|]; rewrite ?Hdisk;
        intuition (by eauto using is_Some_None)].
    destruct (entries d !! ck) as [entry|]; step_M;
      [|eexists; split; [reflexivity|]; rewrite ?Hdisk;
        intuition (by eauto using is_Some_None)].
    destruct (Z.leb_spec (expiresAt entry) (clock w0 (ticks w0)));
      destruct (Z.ltb_spec (clock w0 (ticks w0)) (expiresAt entry)); try lia; step_M;
      eexists; (split; [reflexivity|]); rewrite ?Hdisk;
      intuition (by eauto using is_Some_None). }
  unfold l2Get, loadL2, modify_cache.
  rewrite bind_run, bind_run, gets_run. cbv beta iota.
  destruct (bool_decide (ns ∈ l2Loaded (cache w))).
  - rewrite ret_run. cbv beta iota.
    destruct (Hread w) as (w' & -> & Hc & ? & ? & ? & ? & ? & ?).
    exists w'. rewrite Hc. intuition.
  - rewrite modify_run. cbv beta iota.
    match goal with |- context [try_catchM _ _ ?w1] =>
      destruct (Hread w1) as (w' & Hrun & Hc & ? & ? & ? & ? & ? & ?) end.
    reduce_world_in Hrun. rewrite Hrun.
    exists w'. rewrite Hc. simpl in *. intuition.
Qed.

Lemma check_l2_run ns (ck : string) w :
  exists w',
    (l2Value ← l2Get ns ck;
     match l2Value with
     | Some v =>
         now ← Date_now;
         _ ← modify_cache (fun c =>
                with_l1 (<[ck := {| value := v; expiresAt := now + L1_TTLS ns |}]> (l1 c)) c);
         mret (Some v)
     | None => mret None
     end) w
    = (Returns (persisted_hit (disk w ns) ck (clock w (ticks w))), w')
    /\ l1 (cache w') =
         match persisted_hit (disk w ns) ck (clock w (ticks w)) with
         | Some v =>
             <[ck := {| value := v; expiresAt := clock w (S (ticks w)) + L1_TTLS ns |}]>
               (l1 (cache w))
         | None => l1 (cache w)
         end
    /\ disk w' = disk w /\ effects w' = effects w
    /\ l2Dirty (cache w') = l2Dirty (cache w) /\ l2Timers (cache w') = l2Timers (cache w)
    /\ spawned w' = spawned w.
Proof.
  destruct (l2Get_run ns ck w)
    as (w1 & Hrun & Hl1 & Hdisk & Hclock & Hd & Ht & He & Hs & _ & Hticks).
  rewrite bind_run, Hrun. cbv beta iota.
  destruct (persisted_hit (disk w ns) ck (clock w (ticks w))) as [v|].
  - step_M. eexists. split; [reflexivity|].
    reduce_world. cbn [l1 l2Dirty l2Timers with_l1].
    rewrite Hl1, Hclock, (Hticks (mk_is_Some _ _ eq_refl)). done.
  - step_M. by exists w1.
Qed.

Lemma get_miss_run w ns (key : string) :
  l1 (cache w) !! cacheKey md5_hex ns key = None ->
  persisted_hit (disk w ns) (cacheKey md5_hex ns key) (clock w (ticks w)) = None ->
  exists w',
    get md5_hex ns key w = (Returns None, w')
    /\ l1 (cache w') = l1 (cache w) /\ disk w' = disk w
    /\ l2Dirty (cache w') = l2Dirty (cache w) /\ l2Timers (cache w') = l2Timers (cache w)
    /\ spawned w' = spawned w.
Proof.
  intros Hl1 Hmiss. unfold get. rewrite bind_run, gets_run. cbv beta iota zeta.
  rewrite Hl1.
  destruct (check_l2_run ns (cacheKey md5_hex ns key) w)
    as (w' & -> & Hl1' & ? & _ & ? & ? & ?).
  rewrite Hmiss in *. by exists w'.
Qed.



(** C4.  Whatever [get] returns was read from an entry that had not expired
    in the tier it came from at the time it was read there; a value from the
    persisted tier is promoted with a fresh expiry.  An expired entry of the
    fast tier is passed over and evicted, and the outcome is then what the
    persisted tier holds, which is nothing for an expired entry. *)
Theorem get_never_expired w ns (key : string) (r : completion (option V)) w' :
  get md5_hex ns key w = (r, w') ->
  let ck := cacheKey md5_hex ns key in
  let now := clock w (ticks w) in
  exists found, r = Returns found
  /\ (forall v, found = Some v ->
        (exists e, l1 (cache w) !! ck = Some e /\ now < expiresAt e /\ value e = v)
        \/ (exists d e read_at,
              (l1 (cache w) !! ck = None /\ read_at = ticks w
               \/ (exists old, l1 (cache w) !! ck = Some old /\ expiresAt old <= now)
                  /\ read_at = S (ticks w))
              /\ disk w ns = Stored d /\ version d = 1 /\ entries d !! ck = Some e
              /\ clock w read_at < expiresAt e /\ value e = v
              /\ l1 (cache w') !! ck
                 = Some {| value := v; expiresAt := clock w (S read_at) + L1_TTLS ns |}))
  /\ (forall old, l1 (cache w) !! ck = Some old -> expiresAt old <= now ->
        found = persisted_hit (disk w ns) ck (clock w (S (ticks w)))
        /\ (found = None -> l1 (cache w') !! ck = None))
  /\ (l1 (cache w) !! ck = None -> found = persisted_hit (disk w ns) ck now).
Proof.
  intros Hget ck now. unfold get in Hget. fold ck in Hget.
  rewrite bind_run, gets_run in Hget. cbv beta iota zeta in Hget.
  destruct (l1 (cache w) !! ck) as [e|] eqn:Hl1.
  - rewrite bind_run, Date_now_run in Hget. cbv beta iota in Hget. fold now in Hget.
    destruct (Z.ltb_spec now (expiresAt e)) as [Hfresh|Hexpired].
    + rewrite ret_run in Hget. injection Hget as <- <-.
      exists (Some (value e)). split; [done|]. split; [|split; [|done]].
      * intros v [= <-]. left. by exists e.
      * intros old [= <-] ?. lia.
    + rewrite bind_run, modify_cache_run in Hget.
      cbv beta iota in Hget.
      match type of Hget with context [mbind _ _ ?w1] =>
        destruct (check_l2_run ns ck w1) as (w2 & Hrun & Hl1' & Hdisk & _) end.
      rewrite Hrun in Hget. injection Hget as <- <-.
      reduce_world_in Hl1'. cbn [l1 with_l1] in Hl1'.
      eexists. split; [reflexivity|]. reduce_world. split; [|split; [|done]].
      * intros v Hhit. right. apply persisted_hit_Some in Hhit as Hspec.
        destruct Hspec as (d & e' & Hd & Hv & He' & Hnow & Hval).
        exists d, e', (S (ticks w)). rewrite Hl1', Hhit, lookup_insert_eq.
        split; [right; split; [by exists e | done]|]. done.
      * intros old [= <-] _. split; [done|]. intros Hmiss.
        rewrite Hl1', Hmiss. apply lookup_delete_eq.
  - destruct (check_l2_run ns ck w) as (w2 & Hrun & Hl1' & Hdisk & _).
    rewrite Hrun in Hget. injection Hget as <- <-.
    eexists. split; [reflexivity|]. split; [|split; [done|done]].
    intros v Hhit. right. apply persisted_hit_Some in Hhit as Hspec.
    destruct Hspec as (d & e' & Hd & Hv & He' & Hnow & Hval).
    exists d, e', (ticks w). rewrite Hl1', Hhit, lookup_insert_eq.
    split; [by left | done].
Qed.




Lemma startsWith_app (p s : string) : JS.startsWith (p +:+ s) p = true.
Proof.
  induction p as [|c r IH]; [by destruct s|].
  rewrite str_app_cons. simpl. by rewrite Ascii.eqb_refl.
Qed.

Lemma cacheKey_in_namespace ns (key : string) :
  JS.startsWith (cacheKey md5_hex ns key) (ns_prefix ns) = true.
Proof.
  unfold cacheKey, ns_prefix. rewrite <- str_app_assoc. apply startsWith_app.
Qed.

Lemma flushL2_run ns w :
  flushL2 ns w =
    (Returns tt,
     with_disk
       (<[ns := Stored {| version := 1;
                          entries := prune (clock w (ticks w))
                                       (merge_l1 ns (clock w (ticks w)) (l1 (cache w))
                                          (existing_entries (disk w ns))) |}]> (disk w))
       (with_ticks (S (ticks w)) w)).
Proof.
  unfold flushL2, flushL2_reads, flushL2_resumes, read_disk, write_disk, existing_entries.
  step_M.
  destruct (disk w ns) as [| |d]; step_M; try reflexivity.
  destruct (version d =? 1); cbn [negb]; step_M; reflexivity.
Qed.

Lemma merge_l1_lookup ns (now : Z) (fast_tier existing : gmap string (CacheEntry V))
    (k : string) (e : CacheEntry V) :
  merge_l1 ns now fast_tier existing !! k = Some e <->
  (exists e1, fast_tier !! k = Some e1 /\ JS.startsWith k (ns_prefix ns) = true
              /\ now < expiresAt e1
              /\ e = {| value := value e1; expiresAt := now + L2_TTLS ns |})
  \/ (~ (exists e1, fast_tier !! k = Some e1 /\ JS.startsWith k (ns_prefix ns) = true
                    /\ now < expiresAt e1)
      /\ existing !! k = Some e).
Proof.
  unfold merge_l1. rewrite lookup_union_Some_raw, lookup_fmap.
  split.
  - intros [Hnew | [Hnone Hold]].
    + left. apply fmap_Some in Hnew as (e1 & Hf & ->).
      apply map_lookup_filter_Some in Hf as (? & ? & ?). by exists e1.
    + right. split; [|done]. intros (e1 & He1 & Hns & Hnow).
      apply fmap_None in Hnone.
      assert (filter (fun kv => in_namespace ns kv ∧ unexpired now kv) fast_tier !! k
              = Some e1) as Hin by (apply map_lookup_filter_Some; done).
      congruence.
  - intros [(e1 & He1 & Hns & Hnow & ->) | [Hnone Hold]].
    + left. apply fmap_Some. exists e1. split; [|done].
      by apply map_lookup_filter_Some.
    + right. split; [|done]. apply fmap_None.
      destruct (filter _ fast_tier !! k) as [e1|] eqn:Hf; [|done].
      apply map_lookup_filter_Some in Hf as (? & ? & ?).
      exfalso. apply Hnone. by exists e1.
Qed.


Lemma invalidate_run ns w :
  invalidate ns w =
    (Returns tt,
     with_cache
       {| l1 := filter (fun kv => ¬ in_namespace ns kv) (l1 (cache w));
          l2Dirty := l2Dirty (cache w); l2Timers := l2Timers (cache w);
          l2Loaded := l2Loaded (cache w) ∖ {[ns]} |}
       (with_disk (<[ns := NoFile]> (disk w)) w)).
Proof. reflexivity. Qed.

Lemma get_misses w ns (key : string) :
  l1 (cache w) !! cacheKey md5_hex ns key = None ->
  persisted_hit (disk w ns) (cacheKey md5_hex ns key) (clock w (ticks w)) = None ->
  (get md5_hex ns key w).1 = Returns None.
Proof.
  intros Hl1 Hdisk. by destruct (get_miss_run w ns key Hl1 Hdisk) as (w' & -> & _).
Qed.

Lemma l2_timer_fires_cases ns w :
  exists w',
    l2_timer_fires ns w = (Returns tt, w')
    /\ l1 (cache w') = l1 (cache w)
    /\ (disk w' = disk w
        \/ disk w' =
             <[ns := Stored {| version := 1;
                               entries := prune (clock w (ticks w))
                                            (merge_l1 ns (clock w (ticks w)) (l1 (cache w))
                                               (existing_entries (disk w ns))) |}]> (disk w)).
Proof.
  unfold l2_timer_fires. step_M. cbn [l2Dirty with_l2Timers].
  destruct (bool_decide (ns ∈ l2Dirty (cache w))); step_M.
  - rewrite flushL2_run. reduce_world. eexists. split; [reflexivity|].
    reduce_world. cbn [l1 with_l2Dirty with_l2Timers]. split; [done | by right].
  - eexists. split; [reflexivity|]. reduce_world. split; [done | by left].
Qed.

(** The timer callback is its part up to the read of the storage unit,
    followed by the rest of the flush. *)
Lemma l2_timer_fires_split ns w :
  l2_timer_fires ns w
  = (pending ← l2_timer_begins ns;
     match pending with
     | Some existing => flushL2_resumes ns existing
     | None => mret tt
     end) w.
Proof.
  unfold l2_timer_fires, l2_timer_begins, flushL2. step_M.
  destruct (bool_decide _); step_M; [|done].
  destruct (flushL2_reads ns _) as [[existing| |] w'] eqn:Hreads; step_M; done.
Qed.

(** With no flush in flight: once [invalidate] has run, the fast tier holds
    no key of the namespace and its storage unit is gone, so [get] finds
    nothing for any key of the namespace.  A write that was scheduled before
    and whose timer fires after [invalidate] flushes no entry of the
    namespace, and [get] still finds nothing. *)
Lemma invalidate_then_get w ns :
  let w1 := (invalidate ns w).2 in
  let w2 := (l2_timer_fires ns w1).2 in
  (invalidate ns w).1 = Returns tt
  /\ (forall k e, l1 (cache w1) !! k = Some e -> JS.startsWith k (ns_prefix ns) = false)
  /\ disk w1 ns = NoFile
  /\ l2Timers (cache w1) = l2Timers (cache w)
  /\ (forall key, (get md5_hex ns key w1).1 = Returns None)
  /\ (forall key, (get md5_hex ns key w2).1 = Returns None).
Proof.
  intros w1 w2. unfold w2, w1. rewrite invalidate_run. cbn [fst snd].
  set (c1 := {| l1 := filter _ _ |}).
  set (w1' := with_cache c1 _).
  assert (forall k e, l1 (cache w1') !! k = Some e ->
                      JS.startsWith k (ns_prefix ns) = false) as Hl1.
  { intros k e [_ Hk]%map_lookup_filter_Some. unfold in_namespace in Hk. simpl in Hk.
    by destruct (JS.startsWith k (ns_prefix ns)). }
  assert (forall key, l1 (cache w1') !! cacheKey md5_hex ns key = None) as Hgone.
  { intros key. destruct (l1 (cache w1') !! _) as [e|] eqn:He; [|done].
    apply Hl1 in He. by rewrite cacheKey_in_namespace in He. }
  assert (disk w1' ns = NoFile) as Hdisk by apply fn_lookup_insert.
  split; [done|]. split; [exact Hl1|]. split; [exact Hdisk|]. split; [done|].
  split.
  { intros key. apply get_misses; [apply Hgone | by rewrite Hdisk]. }
  intros key.
  destruct (l2_timer_fires_cases ns w1') as (w2' & -> & Hl1' & [Hsame | Hflush]);
    cbn [snd]; (apply get_misses; [rewrite Hl1'; apply Hgone|]).
  - by rewrite Hsame, Hdisk.
  - rewrite Hflush, fn_lookup_insert. unfold persisted_hit. cbn [version entries].
    change (1 =? 1) with true. cbv iota.
    destruct (prune _ _ !! _) as [e|] eqn:He; [|done].
    apply map_lookup_filter_Some in He as [He _].
    apply merge_l1_lookup in He as [(e1 & He1 & Hns & _) | [_ He]].
    + apply Hl1 in He1. by rewrite cacheKey_in_namespace in He1.
    + by rewrite Hdisk in He.
Qed.

End CacheFacts.

Lemma get_never_expired_witness :
  exists found, (get (fun key => key) kb "q" warm_world).1 = Returns found
                /\ found = Some 7%nat.
Proof.
  destruct (get_never_expired (fun key => key) warm_world kb "q"
              (Returns (Some 7%nat)) (with_ticks 1 warm_world) eq_refl)
    as (found & Hr & _).
  exists found. injection Hr as <-. split; reflexivity.
Defined.

(** ** The Bounded Query Executor *)

Lemma withTimeout_run {V A} (p : promise A) (ms : nat) (fallback : A) (w : World V) :
  never_rejects p ->
  exists a,
    withTimeout p ms fallback w
    = (Returns a, with_effects (effects w ++ [SetTimeout ms; ClearTimeout]) w).
Proof.
  intros Hp. unfold withTimeout, Promise_race, timeout_promise. step_M.
  assert (forall (n : nat) (a : A),
            try_finally (await (Settles n (Resolved a))) (emit ClearTimeout)
              (with_effects (effects w ++ [SetTimeout ms]) w)
            = (Returns a, with_effects (effects w ++ [SetTimeout ms; ClearTimeout]) w))
    as Hawait.
  { intros n a. unfold try_finally, await. step_M.
    unfold with_effects. cbn. by rewrite <- app_assoc. }
  destruct p as [t [a|e]|]; [| by destruct (Hp t e) |]; repeat case_match; eauto.
Qed.

(** C2.  [withTimeout] awaits the race of the operation and a timer of [ms]
    milliseconds.  That race settles, after at most [ms] milliseconds, even
    when the operation stays pending for ever: with the outcome of the
    operation when it settles before the timer is due, with the fallback when
    it settles later or never.  So [withTimeout] always comes back, with that
    outcome; all it does besides is set the timer and clear it, and nothing
    reaches the operation. *)
Theorem withTimeout_bounded {V A} (p : promise A) (ms : nat) (fallback : A) (w : World V) :
  let raced := Promise_race (negb (timer_first w)) p (timeout_promise ms fallback) in
  exists elapsed outcome,
    raced = Settles elapsed outcome
    /\ (elapsed <= ms)%nat
    /\ (forall t r, p = Settles t r -> (t < ms)%nat -> elapsed = t /\ outcome = r)
    /\ (p = Pending \/ (exists t r, p = Settles t r /\ (ms < t)%nat) ->
        elapsed = ms /\ outcome = Resolved fallback)
    /\ (withTimeout p ms fallback w).1
       = match outcome with Resolved a => Returns a | Rejected e => Throws e end
    /\ (withTimeout p ms fallback w).2
       = with_effects (effects w ++ [SetTimeout ms; ClearTimeout]) w.
Proof.
  intros raced. unfold raced, withTimeout, Promise_race, timeout_promise. step_M.
  assert (forall (n : nat) (outcome : settled A),
            let r := try_finally (await (Settles n outcome)) (emit ClearTimeout)
                       (with_effects (effects w ++ [SetTimeout ms]) w) in
            r.1 = match outcome with Resolved a => Returns a | Rejected e => Throws e end
            /\ r.2 = with_effects (effects w ++ [SetTimeout ms; ClearTimeout]) w)
    as Hawait.
  { intros n [a|e]; unfold try_finally, await; step_M;
      unfold with_effects; cbn; rewrite <- app_assoc; done. }
  destruct p as [t r|].
  - destruct (Nat.ltb_spec t ms) as [Hlt|Hge].
    + exists t, r. split; [done|]. split; [lia|].
      split; [by intros ? ? [= <- <-]|].
      split; [intros [? | (t' & r' & [= <- <-] & ?)]; [done | lia]|].
      apply Hawait.
    + destruct (Nat.ltb_spec ms t) as [Hgt|Hle].
      * exists ms, (Resolved fallback). split; [done|]. split; [lia|].
        split; [intros ? ? [= <- <-]; lia|]. split; [done|]. apply Hawait.
      * assert (t = ms) as -> by lia.
        destruct (timer_first w); cbn [negb].
        -- exists ms, (Resolved fallback). split; [done|]. split; [lia|].
           split; [intros ? ? [= <- <-]; lia|]. split; [done|]. apply Hawait.
        -- exists ms, r. split; [done|]. split; [lia|].
           split; [intros ? ? [= <- <-]; lia|].
           split; [intros [? | (t' & r' & [= <- <-] & ?)]; [done | lia]|].
           apply Hawait.
  - exists ms, (Resolved fallback). split; [done|]. split; [lia|].
    split; [done|]. split; [done|]. apply Hawait.
Qed.



(** ** Computations that always come back with a value *)

Section Totality.
Context {V : Type}.









Lemma returns_emit (e : effect) : returns (emit e : M V unit).
Proof. intros w. by eexists _, _. Qed.







Lemma run_without_signal (args : list string) (timeout : TimeoutCategory) (w : World V) :
  exists p,
    run args timeout false None w
    = (Returns p,
       with_effects (effects w ++ [ExecFile args (TIMEOUTS timeout)])
         (with_spawned (S (spawned w)) w))
    /\ never_rejects p.
Proof.
  unfold run. step_M.
  destruct (exec w (spawned w) args) as [after [[[c|]]|] out err|]; step_M;
    eexists; (split; [reflexivity | done]).
Qed.

End Totality.

(** ** The adapters always return *)

Section Adapters.
Context (md5_hex : string -> string).
Implicit Types w : World (list KBMatch).

Lemma handled_result_run {A} (r : JS.result A) (dflt : A) (w : World (list KBMatch)) :
  try_catchM (lift r) (mret dflt) w = (Returns (JS.try_catch r dflt), w).
Proof. rewrite try_catchM_run, lift_run. by destruct r. Qed.

Lemma runKBSearch_run (term : string) (w : World (list KBMatch)) :
  exists found,
    runKBSearch term w
    = (Returns found,
       with_effects
         (effects w ++ [ExecFile ["-beta"; "kb"; "search"; term; "--format"; "json"] 15000;
                        SetTimeout QUERY_TIMEOUT_MS; ClearTimeout])
         (with_spawned (S (spawned w)) w)).
Proof.
  unfold runKBSearch. rewrite bind_run.
  destruct (run_without_signal ["-beta"; "kb"; "search"; term; "--format"; "json"] t_fast w)
    as (p & -> & Hp).
  cbv beta iota. rewrite bind_run.
  match goal with |- context [withTimeout p ?ms ?fb ?w1] =>
    destruct (withTimeout_run p ms fb w1 Hp) as [result ->] end.
  cbv beta iota. destruct (negb (exitCode result =? 0)).
  - rewrite ret_run. eexists. f_equal. unfold with_effects. cbn.
    by rewrite <- app_assoc.
  - rewrite handled_result_run. eexists. f_equal. unfold with_effects. cbn.
    by rewrite <- app_assoc.
Qed.


Lemma all_runKBSearch_run (keywords : list string) : forall w : World (list KBMatch),
  exists allResults w',
    all_map runKBSearch keywords w = (Returns allResults, w')
    /\ cache w' = cache w /\ disk w' = disk w /\ clock w' = clock w
    /\ ticks w' = ticks w /\ sessionCache w' = sessionCache w
    /\ spawned w' = (spawned w + length keywords)%nat.
Proof.
  induction keywords as [|kw r IH]; intros w; simpl.
  - eexists _, _. split; [reflexivity|]. repeat split; lia.
  - destruct (runKBSearch_run kw w) as [found ->].
    match goal with |- context [all_map runKBSearch r ?w1] =>
      destruct (IH w1) as (rest & w' & -> & ? & ? & ? & ? & ? & Hs) end.
    eexists _, _. split; [reflexivity|]. reduce_world_in Hs.
    repeat split; try done. lia.
Qed.
End Adapters.

(** ** What the multi-keyword search leaves in the cache *)

Section SearchCache.
Context (md5_hex : string -> string).

End SearchCache.


(** ** The assembler always returns *)

Section Assembler.
Context (md5_hex : string -> string).












End Assembler.

(** C5, on the code.  A flush that has read the storage unit when
    [invalidate] runs writes what it read back after the unit was removed:
    right after [invalidate] has completed, [get] returns the invalidated
    value of a key that was set before. *)
Theorem invalidate_during_flush_stale :
  (stale_read_scenario cold_world).1 = Returns (Some 7%nat).
Proof. vm_compute. reflexivity. Qed.

(** * Further properties of the code *)

(** ** The two-tier cache in use *)

Section CacheUse.
Context (md5_hex : string -> string) {V : Type}.
Implicit Types (w : World V) (ns : CacheNamespace).

Lemma in_added ns (s : gset CacheNamespace) : ns ∈ {[ns]} ∪ s.
Proof. apply elem_of_union_l. by apply elem_of_singleton. Qed.

Lemma not_in_removed ns (s : gset CacheNamespace) : ns ∉ s ∖ {[ns]}.
Proof. intros [_ Hn]%elem_of_difference. apply Hn. by apply elem_of_singleton. Qed.

(** The whole of what [set] does to the world. *)
Lemma set_world w ns (key : string) (v : V) :
  exists w',
    set md5_hex ns key v w = (Returns tt, w')
    /\ l1 (cache w')
       = <[cacheKey md5_hex ns key :=
             {| value := v; expiresAt := clock w (ticks w) + L1_TTLS ns |}]> (l1 (cache w))
    /\ l2Dirty (cache w') = {[ns]} ∪ l2Dirty (cache w)
    /\ l2Timers (cache w') = {[ns]} ∪ l2Timers (cache w)
    /\ l2Loaded (cache w') = l2Loaded (cache w)
    /\ disk w' = disk w /\ clock w' = clock w /\ ticks w' = S (ticks w)
    /\ spawned w' = spawned w /\ sessionCache w' = sessionCache w
    /\ effects w' = effects w ++ (if bool_decide (ns ∈ l2Timers (cache w)) then []
                                  else [SetTimeout DEBOUNCE_MS]).
Proof.
  unfold set, scheduleL2Write. step_M. cbn [l2Timers with_l1 with_l2Dirty].
  destruct (bool_decide (ns ∈ l2Timers (cache w))) eqn:Hscheduled; step_M.
  - apply bool_decide_eq_true in Hscheduled.
    eexists. split; [reflexivity|]. reduce_world.
    cbn [l1 l2Dirty l2Timers l2Loaded with_l1 with_l2Dirty].
    rewrite app_nil_r. repeat split; try done.
    symmetry. apply subseteq_union_1_L. by apply singleton_subseteq_l.
  - eexists. split; [reflexivity|]. reduce_world.
    cbn [l1 l2Dirty l2Timers l2Loaded with_l1 with_l2Dirty with_l2Timers].
    repeat split; try done.
Qed.

(** What [get] returns, as a function of the two tiers and the clock. *)
Lemma get_result w ns (key : string) :
  let ck := cacheKey md5_hex ns key in
  (get md5_hex ns key w).1
  = Returns match l1 (cache w) !! ck with
            | Some e =>
                if clock w (ticks w) <? expiresAt e then Some (value e)
                else persisted_hit (disk w ns) ck (clock w (S (ticks w)))
            | None => persisted_hit (disk w ns) ck (clock w (ticks w))
            end.
Proof.
  intros ck. unfold get. fold ck. rewrite bind_run, gets_run. cbv beta iota zeta.
  destruct (l1 (cache w) !! ck) as [e|].
  - rewrite bind_run, Date_now_run. cbv beta iota.
    destruct (clock w (ticks w) <? expiresAt e); [by rewrite ret_run|].
    rewrite bind_run, modify_cache_run. cbv beta iota.
    match goal with |- context [mbind _ _ ?w1] =>
      destruct (check_l2_run md5_hex ns ck w1) as (w2 & -> & _) end.
    done.
  - destruct (check_l2_run md5_hex ns ck w) as (w2 & -> & _). done.
Qed.

(** X1.  A value that has just been set is what [get] returns for its key
    as long as the fast-tier TTL of the namespace has not passed between the
    two readings of the clock; from then on the fast-tier entry counts as
    absent and the persisted tier decides. *)
Theorem set_then_get w ns (key : string) (v : V) :
  let w1 := (set md5_hex ns key v w).2 in
  (get md5_hex ns key w1).1
  = Returns (if clock w (S (ticks w)) <? clock w (ticks w) + L1_TTLS ns then Some v
             else persisted_hit (disk w ns) (cacheKey md5_hex ns key)
                    (clock w (S (S (ticks w))))).
Proof.
  intros w1. unfold w1.
  destruct (set_world w ns key v)
    as (w' & -> & Hl1 & _ & _ & _ & Hdisk & Hclock & Hticks & _).
  cbn [snd]. rewrite get_result, Hl1, lookup_insert_eq. cbn [expiresAt value].
  by rewrite Hclock, Hticks, Hdisk.
Qed.

(** Cache keys of different namespaces never coincide, whatever the hash. *)
Lemma other_namespace_key ns other (key : string) :
  other <> ns -> JS.startsWith (cacheKey md5_hex other key) (ns_prefix ns) = false.
Proof. destruct ns, other; intros Hne; try done; by cbv. Qed.

Lemma cacheKey_namespace ns1 ns2 (key1 key2 : string) :
  cacheKey md5_hex ns1 key1 = cacheKey md5_hex ns2 key2 -> ns1 = ns2.
Proof.
  intros Heq. destruct (decide (ns1 = ns2)) as [|Hne]; [done|].
  pose proof (cacheKey_in_namespace md5_hex ns2 key2) as Hin.
  rewrite <- Heq, other_namespace_key in Hin; done.
Qed.

(** What [get] leaves alone. *)
Lemma get_frame w ns (key : string) :
  exists r w',
    get md5_hex ns key w = (Returns r, w')
    /\ spawned w' = spawned w /\ effects w' = effects w /\ clock w' = clock w
    /\ disk w' = disk w
    /\ l2Dirty (cache w') = l2Dirty (cache w) /\ l2Timers (cache w') = l2Timers (cache w)
    /\ (r = None -> forall k, k <> cacheKey md5_hex ns key ->
          l1 (cache w') !! k = l1 (cache w) !! k).
Proof.
  assert (forall w0 : World V,
    exists r w',
      (l2Value ← l2Get ns (cacheKey md5_hex ns key);
       match l2Value with
       | Some v =>
           now ← Date_now;
           _ ← modify_cache (fun c =>
                  with_l1 (<[cacheKey md5_hex ns key :=
                               {| value := v; expiresAt := now + L1_TTLS ns |}]> (l1 c)) c);
           mret (Some v)
       | None => mret None
       end) w0 = (Returns r, w')
      /\ spawned w' = spawned w0 /\ effects w' = effects w0 /\ clock w' = clock w0
      /\ disk w' = disk w0
      /\ l2Dirty (cache w') = l2Dirty (cache w0) /\ l2Timers (cache w') = l2Timers (cache w0)
      /\ (r = None -> l1 (cache w') = l1 (cache w0))) as Hl2.
  { intros w0.
    destruct (l2Get_run md5_hex ns (cacheKey md5_hex ns key) w0)
      as (w1 & Hrun & Hl1 & Hdisk & Hclock & Hd & Ht & He & Hs & _).
    rewrite bind_run, Hrun. cbv beta iota.
    destruct (persisted_hit _ _ _) as [v|]; step_M.
    - eexists _, _. split; [reflexivity|]. reduce_world.
      cbn [l1 l2Dirty l2Timers with_l1]. by repeat split.
    - eexists _, _. split; [reflexivity|]. by repeat split. }
  unfold get. rewrite bind_run, gets_run. cbv beta iota zeta.
  destruct (l1 (cache w) !! cacheKey md5_hex ns key) as [e|] eqn:Hl1.
  - rewrite bind_run, Date_now_run. cbv beta iota.
    destruct (clock w (ticks w) <? expiresAt e).
    + rewrite ret_run. eexists _, _. split; [reflexivity|]. reduce_world.
      by repeat split.
    + rewrite bind_run, modify_cache_run. cbv beta iota.
      match goal with |- context [mbind _ _ ?w1] =>
        destruct (Hl2 w1) as (r & w' & -> & ? & ? & ? & ? & ? & ? & Hnone) end.
      eexists _, _. split; [reflexivity|]. repeat split; try done.
      intros -> k Hk. rewrite Hnone by done. reduce_world. cbn [l1 with_l1].
      by rewrite lookup_delete_ne.
  - destruct (Hl2 w) as (r & w' & -> & ? & ? & ? & ? & ? & ? & Hnone).
    eexists _, _. split; [reflexivity|]. repeat split; try done.
    intros -> k _. by rewrite Hnone.
Qed.

(** X2.  The same raw key in two namespaces names two entries: after a
    [set] in each, [get] gives each namespace its own value, as long as
    neither fast-tier TTL has passed. *)
Theorem namespace_independence w ns1 ns2 (key : string) (v1 v2 : V) :
  ns1 <> ns2 ->
  clock w (S (S (ticks w))) < clock w (ticks w) + L1_TTLS ns1 ->
  clock w (S (S (S (ticks w)))) < clock w (S (ticks w)) + L1_TTLS ns2 ->
  ((_ ← set md5_hex ns1 key v1;
    _ ← set md5_hex ns2 key v2;
    a ← get md5_hex ns1 key;
    b ← get md5_hex ns2 key;
    mret (a, b)) w).1
  = Returns (Some v1, Some v2).
Proof.
  intros Hne H1 H2.
  destruct (set_world w ns1 key v1)
    as (w1 & Hset1 & Hl1 & _ & _ & _ & _ & Hclock1 & Hticks1 & _).
  destruct (set_world w1 ns2 key v2)
    as (w2 & Hset2 & Hl2 & _ & _ & _ & _ & Hclock2 & Hticks2 & _).
  rewrite bind_run, Hset1. cbv beta iota. rewrite bind_run, Hset2. cbv beta iota.
  rewrite Hclock1, Hticks1 in Hl2. rewrite Hclock1 in Hclock2. rewrite Hticks1 in Hticks2.
  assert (cacheKey md5_hex ns1 key <> cacheKey md5_hex ns2 key) as Hkeys
    by (intros Heq; by apply cacheKey_namespace in Heq).
  rewrite bind_run. unfold get at 1. step_M.
  rewrite Hl2, lookup_insert_ne, Hl1, lookup_insert_eq by done. step_M.
  cbn [expiresAt value]. rewrite Hclock2, Hticks2.
  destruct (Z.ltb_spec (clock w (S (S (ticks w)))) (clock w (ticks w) + L1_TTLS ns1));
    [|lia].
  step_M. unfold get. step_M.
  rewrite Hl2, lookup_insert_eq. step_M. cbn [expiresAt value].
  rewrite ?Hclock2, ?Hticks2.
  destruct (Z.ltb_spec (clock w (S (S (S (ticks w)))))
              (clock w (S (ticks w)) + L1_TTLS ns2)); [|lia].
  by step_M.
Qed.

(** X3.  Any number of [set] calls on a namespace, with no timer firing in
    between, schedule one persisted write: a single timer of [DEBOUNCE_MS]
    is set if none was pending, and none otherwise.  The namespace ends up
    dirty with a timer pending, and the disk is not touched. *)
Theorem sets_share_one_timer (kvs : list (string * V)) : forall w ns,
  kvs <> [] ->
  let w' := (set_each md5_hex ns kvs w).2 in
  (set_each md5_hex ns kvs w).1 = Returns tt
  /\ effects w' = effects w ++ (if bool_decide (ns ∈ l2Timers (cache w)) then []
                                else [SetTimeout DEBOUNCE_MS])
  /\ ns ∈ l2Dirty (cache w') /\ ns ∈ l2Timers (cache w')
  /\ disk w' = disk w.
Proof.
  induction kvs as [|[key v] r IH]; intros w ns Hne; [done|]. clear Hne.
  destruct (set_world w ns key v)
    as (w1 & Hset & _ & Hdirty & Htimers & _ & Hdisk & _ & _ & _ & _ & Heff).
  cbn [set_each]. cbv zeta. rewrite bind_run, Hset. cbv beta iota.
  destruct r as [|kv r].
  - cbn [set_each]. rewrite ret_run. cbn [fst snd].
    rewrite Heff, Hdirty, Htimers, Hdisk. repeat split; try done; apply in_added.
  - destruct (IH w1 ns) as (Hr & Heff' & Hd' & Ht' & Hdisk'); [done|].
    split; [done|]. rewrite Heff', Hdisk', Heff, Hdisk.
    rewrite (bool_decide_eq_true_2 (ns ∈ l2Timers (cache w1))) by (rewrite Htimers; apply in_added).
    rewrite app_nil_r. done.
Qed.

(** X4.  Once the debounce timer of a namespace has fired, the namespace
    is neither dirty nor scheduled, so the next [set] sets a new timer. *)
Theorem timer_rearms w ns (key : string) (v : V) :
  let w1 := (l2_timer_fires ns w).2 in
  (ns ∉ l2Timers (cache w1)) /\ (ns ∉ l2Dirty (cache w1))
  /\ effects (set md5_hex ns key v w1).2 = effects w ++ [SetTimeout DEBOUNCE_MS].
Proof.
  intros w1.
  assert ((ns ∉ l2Timers (cache w1)) /\ (ns ∉ l2Dirty (cache w1)) /\ effects w1 = effects w)
    as (Ht & Hd & He).
  { unfold w1, l2_timer_fires. step_M. cbn [l2Dirty with_l2Timers].
    destruct (bool_decide (ns ∈ l2Dirty (cache w))) eqn:Hdirty; step_M.
    - rewrite flushL2_run. reduce_world. cbn [l2Timers l2Dirty with_l2Dirty with_l2Timers].
      repeat split; apply not_in_removed.
    - apply bool_decide_eq_false in Hdirty. cbn [l2Timers l2Dirty with_l2Timers].
      repeat split; [apply not_in_removed | done]. }
  split; [done|]. split; [done|].
  destruct (set_world w1 ns key v)
    as (w2 & Hset & _ & _ & _ & _ & _ & _ & _ & _ & _ & Heff).
  rewrite Hset. cbn [snd]. by rewrite Heff, bool_decide_eq_false_2, He.
Qed.

(** X5.  A value that was set and flushed before its fast-tier TTL passed
    is served by a cache instance whose fast tier is empty, as a new process
    has it, exactly until the persisted-tier TTL, counted from the flush,
    has passed. *)
Theorem flushed_value_survives_restart w (later : World V) ns (key : string) (v : V) :
  let set_at := clock w (ticks w) in
  let flushed_at := clock w (S (ticks w)) in
  let w2 := (l2_timer_fires ns (set md5_hex ns key v w).2).2 in
  flushed_at < set_at + L1_TTLS ns ->
  l1 (cache later) = ∅ -> disk later = disk w2 ->
  (get md5_hex ns key later).1
  = Returns (if bool_decide (clock later (ticks later) < flushed_at + L2_TTLS ns)
             then Some v else None).
Proof.
  intros set_at flushed_at w2 Hfresh Hl1 Hdisk.
  rewrite get_result, Hl1, lookup_empty, Hdisk. f_equal.
  destruct (set_world w ns key v)
    as (w1 & Hset & Hl1' & Hdirty & _ & _ & _ & Hclock & Hticks & _).
  unfold w2. rewrite Hset. cbn [snd]. unfold l2_timer_fires. step_M.
  cbn [l2Dirty with_l2Timers].
  rewrite bool_decide_eq_true_2 by (rewrite Hdirty; apply in_added).
  step_M. rewrite flushL2_run. reduce_world. cbn [l1 with_l2Dirty with_l2Timers].
  rewrite fn_lookup_insert. unfold persisted_hit. cbn [version entries].
  change (1 =? 1) with true. cbv iota.
  rewrite Hclock, Hticks. fold flushed_at.
  assert (prune flushed_at
            (merge_l1 ns flushed_at (l1 (cache w1)) (existing_entries (disk w1 ns)))
          !! cacheKey md5_hex ns key
          = Some {| value := v; expiresAt := flushed_at + L2_TTLS ns |}) as ->.
  { apply map_lookup_filter_Some. split.
    - apply merge_l1_lookup. left. eexists. rewrite Hl1', lookup_insert_eq.
      split; [done|]. split; [apply cacheKey_in_namespace|]. cbn [expiresAt value].
      split; [done | done].
    - unfold unexpired. cbn. destruct ns; cbn; lia. }
  cbn [expiresAt value]. case_bool_decide; destruct (Z.ltb_spec (clock later (ticks later)) (flushed_at + L2_TTLS ns)); done || lia.
Qed.


(** X7.  [invalidate] of one namespace changes neither what [get] returns
    for a key of another namespace nor the storage unit of that namespace. *)
Theorem invalidate_spares_other_namespaces w ns other (key : string) :
  other <> ns ->
  let w1 := (invalidate ns w).2 in
  (get md5_hex other key w1).1 = (get md5_hex other key w).1
  /\ disk w1 other = disk w other.
Proof.
  intros Hne w1. unfold w1. rewrite invalidate_run. cbn [snd].
  rewrite !get_result. reduce_world. cbn [l1].
  rewrite fn_lookup_insert_ne by done.
  split; [|done]. f_equal.
  assert (filter (fun kv => ¬ in_namespace ns kv) (l1 (cache w))
            !! cacheKey md5_hex other key
          = l1 (cache w) !! cacheKey md5_hex other key) as ->; [|done].
  destruct (l1 (cache w) !! cacheKey md5_hex other key) as [e|] eqn:He.
  - apply map_lookup_filter_Some. split; [done|].
    unfold in_namespace. cbn [fst]. by rewrite other_namespace_key.
  - apply map_lookup_filter_None. by left.
Qed.
End CacheUse.

(** ** The adapters *)

Section Queries.
Context (md5_hex : string -> string).
Implicit Types w : World (list KBMatch).

(** A query through the Bounded Query Executor, in one step. *)
Lemma query_run (args : list string) w :
  (p ← run args t_fast false None; withTimeout p QUERY_TIMEOUT_MS timed_out) w
  = (Returns (query_result w args), after_query args w).
Proof.
  unfold run, withTimeout, Promise_race, timeout_promise, try_finally, query_result,
    after_query.
  step_M.
  destruct (exec w (spawned w) args) as [after error out err|]; step_M.
  - destruct (Nat.ltb_spec after QUERY_TIMEOUT_MS) as [Hlt|Hge]; cbn [orb].
    + unfold await. step_M. unfold with_effects. cbn. rewrite <- !app_assoc.
      by destruct error as [[[c|]]|].
    + destruct (Nat.ltb_spec QUERY_TIMEOUT_MS after) as [Hgt|Hle].
      * rewrite (proj2 (Nat.eqb_neq after QUERY_TIMEOUT_MS)) by lia. cbn [andb].
        unfold await. step_M. unfold with_effects. cbn. by rewrite <- !app_assoc.
      * rewrite (proj2 (Nat.eqb_eq after QUERY_TIMEOUT_MS)) by lia. cbn [andb].
        destruct (timer_first w); cbn [negb]; unfold await; step_M;
          unfold with_effects; cbn; rewrite <- !app_assoc; [done|].
        by destruct error as [[[c|]]|].
  - unfold await. step_M. unfold with_effects. cbn. by rewrite <- !app_assoc.
Qed.

(** The two adapters as functions of what the query brings back. *)
Lemma runKBSearch_result (term : string) w :
  let r := query_result w ["-beta"; "kb"; "search"; term; "--format"; "json"] in
  runKBSearch term w
  = (Returns (if exitCode r =? 0 then JS.try_catch (matches_of_stdout (stdout r)) []
              else []),
     after_query ["-beta"; "kb"; "search"; term; "--format"; "json"] w).
Proof.
  intros r. unfold runKBSearch.
  pose proof (query_run ["-beta"; "kb"; "search"; term; "--format"; "json"] w) as Hq.
  rewrite bind_run in Hq. rewrite bind_run.
  destruct (run _ _ _ _ w) as [[p| |] w1]; [|done..].
  cbv beta iota in Hq |- *. rewrite bind_run, Hq. cbv beta iota. fold r.
  destruct (exitCode r =? 0); cbn [negb]; [|by rewrite ret_run].
  by rewrite handled_result_run.
Qed.

Lemma fetchRecentSessions_result (depth : ContextDepth) w :
  let args := ["query"; "sessions"; "--all"; "--limit";
               match depth with minimal => "5" | standard => "10" | deep => "20" end;
               "--time-range"; match depth with deep => "7d" | _ => "24h" end;
               "--format"; "json"] in
  match sessionCache w with
  | Some c =>
      if clock w (ticks w) - cc_fetchedAt c <? CACHE_TTL_MS
      then fetchRecentSessions depth w = (Returns (cc_sessions c), with_ticks (S (ticks w)) w)
      else
        let w1 := with_ticks (S (ticks w)) w in
        let r := query_result w1 args in
        fetchRecentSessions depth w
        = if exitCode r =? 0 then
            match sessions_of_stdout (stdout r) with
            | JS.Ok found =>
                (Returns found,
                 with_sessionCache
                   (Some {| cc_sessions := found; cc_fetchedAt := clock w (S (ticks w)) |})
                   (with_ticks (S (S (ticks w))) (after_query args w1)))
            | JS.Throw _ => (Returns [], after_query args w1)
            end
          else (Returns [], after_query args w1)
  | None =>
      let r := query_result w args in
      fetchRecentSessions depth w
      = if exitCode r =? 0 then
          match sessions_of_stdout (stdout r) with
          | JS.Ok found =>
              (Returns found,
               with_sessionCache
                 (Some {| cc_sessions := found; cc_fetchedAt := clock w (ticks w) |})
                 (with_ticks (S (ticks w)) (after_query args w)))
          | JS.Throw _ => (Returns [], after_query args w)
          end
        else (Returns [], after_query args w)
  end.
Proof.
  intros args.
  assert (forall w0 : World (list KBMatch),
    let r := query_result w0 args in
    (p ← run args t_fast false None;
     result ← withTimeout p QUERY_TIMEOUT_MS timed_out;
     if negb (exitCode result =? 0) then mret []
     else
       try_catchM
         (raw ← lift (extractJSON (stdout result));
          found ← lift (map_result session_of_item (array_or_empty raw));
          now ← Date_now;
          _ ← modify (with_sessionCache
                        (Some {| cc_sessions := found; cc_fetchedAt := now |}));
          mret found)
         (mret [])) w0
    = if exitCode r =? 0 then
        match sessions_of_stdout (stdout r) with
        | JS.Ok found =>
            (Returns found,
             with_sessionCache
               (Some {| cc_sessions := found;
                        cc_fetchedAt := clock w0 (ticks w0) |})
               (with_ticks (S (ticks w0)) (after_query args w0)))
        | JS.Throw _ => (Returns [], after_query args w0)
        end
      else (Returns [], after_query args w0)) as Hquery.
  { intros w0 r.
    pose proof (query_run args w0) as Hq.
    rewrite bind_run in Hq. rewrite bind_run.
    destruct (run _ _ _ _ w0) as [[p| |] w1]; [|done..].
    cbv beta iota in Hq |- *. rewrite bind_run, Hq. cbv beta iota. fold r.
    destruct (exitCode r =? 0); cbn [negb]; [|by rewrite ret_run].
    unfold sessions_of_stdout. rewrite try_catchM_run, bind_run, lift_run.
    destruct (extractJSON (stdout r)) as [raw|e]; [|by rewrite ret_run].
    cbv beta iota. rewrite bind_run, lift_run.
    change (JS.Ok raw ≫= _) with (map_result session_of_item (array_or_empty raw)).
    destruct (map_result session_of_item (array_or_empty raw)) as [found|e];
      [|by rewrite ret_run].
    cbv beta iota. by step_M. }
  unfold fetchRecentSessions, isCacheFresh. rewrite !bind_run, gets_run. cbv beta iota.
  destruct (sessionCache w) as [c|] eqn:Hsc.
  - rewrite bind_run, Date_now_run. cbv beta iota. rewrite ret_run. cbv beta iota.
    destruct (clock w (ticks w) - cc_fetchedAt c <? CACHE_TTL_MS).
    + step_M. by rewrite Hsc.
    + exact (Hquery (with_ticks (S (ticks w)) w)).
  - rewrite ret_run. cbv beta iota zeta. apply Hquery.
Qed.


Lemma map_result_Throw {A B} (f : A -> JS.result B) (l : list A) (x : A) (e : JS.exn) :
  x ∈ l -> f x = JS.Throw e -> exists e', map_result f l = JS.Throw e'.
Proof.
  intros Hin Hx. induction l as [|y r IH]; [by apply elem_of_nil in Hin|].
  apply elem_of_cons in Hin as [<-|Hin]; simpl.
  - rewrite Hx. by eexists.
  - destruct (f y) as [b|e1]; [|by eexists]. simpl.
    destruct (IH Hin) as [e' ->]. by eexists.
Qed.

Lemma array_slice0_take {A} (l : list A) (e : Z) :
  0 <= e -> JS.array_slice0 l e = take (Z.to_nat e) l.
Proof.
  intros He. unfold JS.array_slice0.
  destruct (Z.ltb_spec e 0); [lia|].
  destruct (Z.le_ge_cases e (Z.of_nat (length l))).
  - by rewrite Z.min_l.
  - rewrite Z.min_r, Nat2Z.id by done.
    change (firstn (length l) l) with (take (length l) l).
    rewrite firstn_all. symmetry. apply take_ge. lia.
Qed.


(** X9.  [runKBSearch] returns no match, and spawns its one child process
    all the same, when the child never calls back, calls back after more
    than [QUERY_TIMEOUT_MS] milliseconds, calls back with an error whose code
    is not 0, or prints something [extractJSON] rejects. *)
Theorem runKBSearch_degrades (term : string) w :
  let args := ["-beta"; "kb"; "search"; term; "--format"; "json"] in
  exec w (spawned w) args = ExecNever
  \/ (exists after error out err,
        exec w (spawned w) args = ExecCallback after error out err
        /\ ((QUERY_TIMEOUT_MS < after)%nat
            \/ (exists e, error = Some e /\ err_code e <> Some 0)
            \/ (exists e, extractJSON out = JS.Throw e))) ->
  runKBSearch term w = (Returns [], after_query args w).
Proof.
  intros args Hexec. rewrite runKBSearch_result. fold args. f_equal. f_equal.
  unfold query_result.
  destruct Hexec as [-> | (after & error & out & err & -> & Hwhy)]; [done|].
  destruct Hwhy as [Hlate | [(e & -> & Hcode) | [e Hout]]].
  - rewrite (proj2 (Nat.ltb_ge after QUERY_TIMEOUT_MS)) by lia.
    by rewrite (proj2 (Nat.eqb_neq after QUERY_TIMEOUT_MS)) by lia.
  - destruct (_ || _); [|done]. cbn [exitCode stdout].
    destruct e as [[c|]]; cbn [exit_code]; [|done]. cbn [err_code] in Hcode.
    destruct (Z.eqb_spec c 0) as [->|]; done.
  - destruct (_ || _); [|done]. cbn [exitCode stdout].
    destruct (_ =? 0); [|done]. unfold matches_of_stdout. by rewrite Hout.
Qed.

(** X10.  Of a JSON array printed by a successful search only the first
    five entries are read; a [null] among them makes the callback throw, and
    [runKBSearch] then returns no match at all, whatever the other entries
    are. *)
Theorem runKBSearch_null_entry (term : string) w (after : nat) (out err : string)
    (items : list JS.json) :
  let args := ["-beta"; "kb"; "search"; term; "--format"; "json"] in
  exec w (spawned w) args = ExecCallback after None out err ->
  (after < QUERY_TIMEOUT_MS)%nat ->
  extractJSON out = JS.Ok (JS.JArr items) ->
  (runKBSearch term w).1
  = Returns (JS.try_catch (map_result match_of_entry (take 5 items)) [])
  /\ (JS.JNull ∈ take 5 items -> (runKBSearch term w).1 = Returns []).
Proof.
  intros args Hexec Hafter Hout.
  assert ((runKBSearch term w).1
          = Returns (JS.try_catch (map_result match_of_entry (take 5 items)) [])) as Hrun.
  { rewrite runKBSearch_result. fold args. cbn [fst]. unfold query_result.
    rewrite Hexec, (proj2 (Nat.ltb_lt after QUERY_TIMEOUT_MS)) by done.
    cbn [orb exitCode stdout]. change (0 =? 0) with true. cbv iota.
    unfold matches_of_stdout. rewrite Hout.
    change (JS.Ok (JS.JArr items) ≫= _)
      with (map_result match_of_entry (JS.array_slice0 items 5)).
    by rewrite array_slice0_take. }
  split; [done|]. intros Hnull. rewrite Hrun.
  destruct (map_result_Throw match_of_entry (take 5 items) JS.JNull
              (JS.TypeError "Cannot read properties of null") Hnull eq_refl) as [e ->].
  done.
Qed.

(** X11.  While the session cache is younger than [CACHE_TTL_MS],
    [fetchRecentSessions] returns the cached list, whatever depth is asked
    for, and spawns nothing; once it is that old, it spawns a query. *)
Theorem fetchRecentSessions_cache_window (depth : ContextDepth) w (c : CachedContext) :
  sessionCache w = Some c ->
  if clock w (ticks w) - cc_fetchedAt c <? CACHE_TTL_MS
  then fetchRecentSessions depth w = (Returns (cc_sessions c), with_ticks (S (ticks w)) w)
  else spawned (fetchRecentSessions depth w).2 = S (spawned w).
Proof.
  intros Hsc. pose proof (fetchRecentSessions_result depth w) as Hrun.
  cbv zeta in Hrun. rewrite Hsc in Hrun.
  destruct (_ <? CACHE_TTL_MS); [done|]. rewrite Hrun.
  destruct (exitCode _ =? 0); [destruct (sessions_of_stdout _)|]; done.
Qed.

(** X12.  [fetchRecentSessions] leaves the two-tier cache and the disk
    alone and ends in one of three ways: it serves the session cache without
    spawning; or it spawns one query, returns the empty list and leaves the
    session cache as it was; or it spawns one query and stores the very list
    it returns, stamped with the time, as the new session cache. *)
Theorem fetchRecentSessions_cache_policy (depth : ContextDepth) w :
  exists found w',
    fetchRecentSessions depth w = (Returns found, w')
    /\ cache w' = cache w /\ disk w' = disk w
    /\ ((spawned w' = spawned w /\ sessionCache w' = sessionCache w
         /\ exists c, sessionCache w = Some c /\ found = cc_sessions c)
        \/ (spawned w' = S (spawned w) /\ sessionCache w' = sessionCache w /\ found = [])
        \/ (spawned w' = S (spawned w)
            /\ exists now, sessionCache w' = Some {| cc_sessions := found;
                                                     cc_fetchedAt := now |})).
Proof.
  pose proof (fetchRecentSessions_result depth w) as Hrun. cbv zeta in Hrun.
  destruct (sessionCache w) as [c|] eqn:Hsc.
  - destruct (_ <? CACHE_TTL_MS).
    + rewrite Hrun. eexists _, _. split; [reflexivity|]. reduce_world.
      split; [done|]. split; [done|]. left. rewrite Hsc. eauto.
    + rewrite Hrun. destruct (exitCode _ =? 0).
      * destruct (sessions_of_stdout _) as [found|e].
        -- eexists _, _. split; [reflexivity|]. unfold after_query. reduce_world.
           split; [done|]. split; [done|]. right. right. eauto.
        -- eexists _, _. split; [reflexivity|]. unfold after_query. reduce_world.
           split; [done|]. split; [done|]. right. left. by rewrite Hsc.
      * eexists _, _. split; [reflexivity|]. unfold after_query. reduce_world.
        split; [done|]. split; [done|]. right. left. by rewrite Hsc.
  - rewrite Hrun. destruct (exitCode _ =? 0).
    + destruct (sessions_of_stdout _) as [found|e].
      * eexists _, _. split; [reflexivity|]. unfold after_query. reduce_world.
        split; [done|]. split; [done|]. right. right. eauto.
      * eexists _, _. split; [reflexivity|]. unfold after_query. reduce_world.
        split; [done|]. split; [done|]. right. left. by rewrite Hsc.
    + eexists _, _. split; [reflexivity|]. unfold after_query. reduce_world.
      split; [done|]. split; [done|]. right. left. by rewrite Hsc.
Qed.

End Queries.

(** ** The assembler *)

Section Assembly.
Context (md5_hex : string -> string).
Implicit Types w : World (list KBMatch).

(** X14.  After a miss that found something, the same query is answered
    from the cache: when all readings of the clock lie within the fast-tier
    TTL of each other, a second [searchKB] returns the same matches and
    spawns nothing. *)
Theorem searchKB_then_hit w w1 (query : string) (merged : list KBMatch) :
  let ck := cacheKey md5_hex kb query in
  l1 (cache w) !! ck = None ->
  (forall t, persisted_hit (disk w kb) ck t = None) ->
  (forall n m, clock w n < clock w m + L1_TTLS kb) ->
  searchKB md5_hex query w = (Returns merged, w1) ->
  merged <> [] ->
  searchKB md5_hex query w1 = (Returns merged, with_ticks (S (ticks w1)) w1).
Proof.
  intros ck Hl1 Hdisk Hclock Hrun Hmerged. subst ck.
  unfold searchKB in Hrun. rewrite bind_run in Hrun.
  destruct (get_frame md5_hex w kb query)
    as (r & wa & Hget & _ & _ & Hclocka & _).
  assert (r = None) as ->.
  { pose proof (get_result md5_hex w kb query) as Hr. cbv zeta in Hr.
    rewrite Hget, Hl1, Hdisk in Hr. by injection Hr. }
  rewrite Hget in Hrun. cbv beta iota zeta in Hrun. rewrite bind_run in Hrun.
  destruct (all_runKBSearch_run (extractSearchKeywords query 3) wa)
    as (allResults & wb & Hall & _ & _ & Hclockb & _).
  rewrite Hall in Hrun. cbv beta iota in Hrun. rewrite bind_run in Hrun.
  destruct (merge_results allResults) as [|m ms] eqn:Hm.
  { cbn [length Nat.ltb Nat.leb] in Hrun. rewrite !ret_run in Hrun.
    by injection Hrun as <- <-. }
  cbn [length Nat.ltb Nat.leb] in Hrun.
  destruct (set_world md5_hex wb kb query (m :: ms))
    as (wc & Hset & Hl1c & _ & _ & _ & _ & Hclockc & Hticksc & _).
  rewrite Hset, ret_run in Hrun. injection Hrun as <- <-.
  unfold searchKB, get. step_M.
  rewrite Hl1c, lookup_insert_eq. step_M. cbn [expiresAt value].
  rewrite Hclockc, Hclockb, Hclocka.
  destruct (Z.ltb_spec (clock w (ticks wc)) (clock w (ticks wb) + L1_TTLS kb)) as [|Hle].
  - by step_M.
  - specialize (Hclock (ticks wc) (ticks wb)). lia.
Qed.

Lemma ensureInstalled_run {V} (w : World V) :
  ensureInstalled w = (Returns (installed w), w).
Proof. unfold ensureInstalled. step_M. destruct (installed w); by step_M. Qed.

Lemma keywords_at_most_three (query : string) :
  (length (extractSearchKeywords query 3) <= 3)%nat.
Proof.
  unfold extractSearchKeywords. destruct (candidate_words query); [simpl; lia|].
  cbv zeta. rewrite array_slice0_length by lia. lia.
Qed.

Lemma searchKB_frame (query : string) w :
  exists found w',
    searchKB md5_hex query w = (Returns found, w')
    /\ (spawned w <= spawned w' <= spawned w + 3)%nat.
Proof.
  unfold searchKB. rewrite bind_run.
  destruct (get_frame md5_hex w kb query) as (r & wa & -> & Hsa & _).
  cbv beta iota. destruct r as [hit|].
  - rewrite ret_run. eexists _, _. split; [reflexivity|]. lia.
  - cbv zeta. rewrite bind_run.
    destruct (all_runKBSearch_run (extractSearchKeywords query 3) wa)
      as (allResults & wb & -> & _ & _ & _ & _ & _ & Hsb).
    cbv beta iota. rewrite bind_run.
    pose proof (keywords_at_most_three query).
    destruct (0 <? length (merge_results allResults))%nat.
    + destruct (set_world md5_hex wb kb query (merge_results allResults))
        as (wc & -> & _ & _ & _ & _ & _ & _ & _ & Hsc & _).
      cbv beta iota. rewrite ret_run. eexists _, _. split; [reflexivity|]. lia.
    + rewrite !ret_run. eexists _, _. split; [reflexivity|]. lia.
Qed.

Lemma formatTimestamp_ticks (iso : string) w :
  exists s n, formatTimestamp iso w = (Returns s, with_ticks n w).
Proof.
  unfold formatTimestamp. destruct (negb (nonempty iso)).
  - exists "recently", (ticks w). by destruct w.
  - step_M. destruct (date_parse w iso) as [t|]; step_M.
    + cbv zeta.
      destruct (_ <? 0); [|destruct (_ <? 60); [|destruct (_ <? 24)]];
        step_M; by eexists _, _.
    + exists "recently", (ticks w). by destruct w.
Qed.

Lemma map_cb_ticks {A B} (f : A -> M (list KBMatch) B) (l : list A) :
  (forall x w, exists y n, f x w = (Returns y, with_ticks n w)) ->
  forall w, exists ys n, map_cb f l w = (Returns ys, with_ticks n w).
Proof.
  intros Hf. induction l as [|x r IH]; intros w; simpl.
  - exists [], (ticks w). by destruct w.
  - rewrite bind_run. destruct (Hf x w) as (y & n & ->). cbv beta iota.
    rewrite bind_run. destruct (IH (with_ticks n w)) as (ys & n' & ->).
    cbv beta iota. rewrite ret_run. by eexists _, _.
Qed.

Lemma formatSessions_run (found : list SessionMeta) (depth : ContextDepth) w :
  exists s n,
    formatSessions found depth w = (Returns s, with_ticks n w)
    /\ match found with
       | [] => s = ""
       | _ :: _ => exists rest, s = "Recent Activity:" +:+ nl +:+ rest
       end.
Proof.
  unfold formatSessions. destruct found as [|x r].
  - exists "", (ticks w). by destruct w.
  - rewrite bind_run.
    match goal with |- context [map_cb ?f ?l w] =>
      destruct (map_cb_ticks f l) with (w := w) as (lines & n & ->) end.
    + intros s w0. rewrite bind_run.
      destruct (formatTimestamp_ticks (sm_startedAt s) w0) as (time & n & ->).
      cbv beta iota zeta. rewrite ret_run. by eexists _, _.
    + cbv beta iota. rewrite ret_run. eexists _, _. split; [reflexivity|]. by eexists.
Qed.

Lemma fetchRecentSessions_frame (depth : ContextDepth) w :
  exists found w',
    fetchRecentSessions depth w = (Returns found, w')
    /\ cache w' = cache w /\ disk w' = disk w
    /\ (spawned w <= spawned w' <= spawned w + 1)%nat.
Proof.
  pose proof (fetchRecentSessions_result depth w) as Hrun. cbv zeta in Hrun.
  destruct (sessionCache w) as [c|];
    repeat (match type of Hrun with context [if ?b then _ else _] => destruct b end);
    try (destruct (sessions_of_stdout _));
    rewrite Hrun; eexists _, _; (split; [reflexivity|]);
    unfold after_query; reduce_world; (split; [done|]); (split; [done|]); lia.
Qed.


Lemma nonempty_app_l (s t : string) : nonempty s = true -> nonempty (s +:+ t) = true.
Proof. by destruct s. Qed.

Lemma join_head (sep x : string) (l : list string) :
  exists tail, JS.join sep (x :: l) = x +:+ tail.
Proof.
  destruct l as [|y r]; [exists ""; by rewrite str_app_nil_r|].
  by exists (sep +:+ JS.join sep (y :: r)).
Qed.

(** X16.  A block that [buildContext] returns opens with the
    [<tribe-context>] line followed by the heading of its first section,
    which is the activity section or else the knowledge section, and closes
    with the [</tribe-context>] line. *)
Theorem buildContext_block_shape (prompt : string) (depth : ContextDepth) w w'
    (block : string) :
  buildContext md5_hex prompt depth w = (Returns (Some block), w') ->
  exists heading rest,
    (heading = "Recent Activity:" \/ heading = "Relevant Knowledge:")
    /\ block = "<tribe-context>" +:+ nl +:+ heading +:+ nl +:+ rest
                 +:+ nl +:+ "</tribe-context>".
Proof.
  unfold buildContext. rewrite bind_run, ensureInstalled_run. cbv beta iota.
  destruct (installed w); cbn [negb]; [|by rewrite ret_run].
  cbv zeta. rewrite bind_run. unfold all_pair.
  destruct (fetchRecentSessions_frame depth w) as (found & w1 & -> & _).
  match goal with |- context [(if ?b then _ else _) w1] => set (wants_kb := b) end.
  assert (exists kbResults w2,
            (if wants_kb then searchKB md5_hex prompt else mret []) w1
            = (Returns kbResults, w2)) as (kbResults & w2 & ->).
  { destruct wants_kb.
    - destruct (searchKB_frame prompt w1) as (kbResults & w2 & -> & _). by eexists _, _.
    - rewrite ret_run. by eexists _, _. }
  cbn [join_all]. cbv beta iota.
  destruct found as [|s r]; [destruct kbResults as [|m ms]|].
  - by rewrite ret_run.
  - rewrite bind_run.
    destruct (formatSessions_run [] depth w2) as (sb & n & -> & ->). cbv beta iota zeta.
    assert (List.filter nonempty [""; formatKBResults (m :: ms); detectActiveProject []]
            = [formatKBResults (m :: ms)]) as -> by done.
    rewrite ret_run. intros [= <- _].
    exists "Relevant Knowledge:", (JS.join nl (map format_match (m :: ms))).
    split; [by right|]. unfold formatKBResults. cbn [JS.join].
    by rewrite !str_app_assoc.
  - rewrite bind_run.
    destruct (formatSessions_run (s :: r) depth w2) as (sb & n & -> & rest & ->).
    cbv beta iota zeta. cbn [List.filter].
    rewrite (nonempty_app_l "Recent Activity:") by done.
    match goal with |- context [JS.join ?sep (?x :: ?l)] =>
      destruct (join_head sep x l) as [tail ->] end.
    rewrite ret_run. intros [= <- _].
    exists "Recent Activity:", (rest +:+ tail).
    split; [by left|]. by rewrite !str_app_assoc.
Qed.

End Assembly.

Section Down.
Context (md5_hex : string -> string).
Implicit Types w : World (list KBMatch).

Lemma l2Get_keeps_exec {V} (w0 : World V) (ns : CacheNamespace) (ck : string) :
  exec (l2Get ns ck w0).2 = exec w0
  /\ sessionCache (l2Get ns ck w0).2 = sessionCache w0.
Proof.
  unfold l2Get, loadL2.
  assert (forall w1 : World V,
    let r := try_catchM
      (parsed ← read_disk ns;
       if negb (version parsed =? 1) then mret None
       else match entries parsed !! ck with
            | None => mret None
            | Some entry =>
                now ← Date_now;
                if expiresAt entry <=? now then mret None
                else mret (Some (value entry))
            end)
      (mret None) w1 in
    exec r.2 = exec w1 /\ sessionCache r.2 = sessionCache w1) as Hread.
  { intros w1. cbv zeta. rewrite try_catchM_run, bind_run. unfold read_disk.
    destruct (disk w1 ns) as [| |d]; [by rewrite ret_run..|].
    destruct (version d =? 1); cbn [negb]; [|by rewrite ret_run].
    destruct (entries d !! ck) as [entry|]; [|by rewrite ret_run].
    rewrite bind_run, Date_now_run. cbv beta iota.
    destruct (_ <=? _); by rewrite ret_run. }
  rewrite bind_run, bind_run, gets_run. cbv beta iota.
  destruct (bool_decide _); [rewrite ret_run | rewrite modify_cache_run]; cbv beta iota.
  - apply Hread.
  - exact (Hread _).
Qed.

Lemma get_keeps_exec {V} (w0 : World V) (ns : CacheNamespace) (key : string) :
  exec (get md5_hex ns key w0).2 = exec w0
  /\ sessionCache (get md5_hex ns key w0).2 = sessionCache w0.
Proof.
  assert (forall w1 : World V,
    let r := (l2Value ← l2Get ns (cacheKey md5_hex ns key);
       match l2Value with
       | Some v =>
           now ← Date_now;
           _ ← modify_cache (fun c =>
                  with_l1 (<[cacheKey md5_hex ns key :=
                               {| value := v; expiresAt := now + L1_TTLS ns |}]> (l1 c)) c);
           mret (Some v)
       | None => mret None
       end) w1 in
    exec r.2 = exec w1 /\ sessionCache r.2 = sessionCache w1) as Hl2.
  { intros w1. cbv zeta. rewrite bind_run.
    pose proof (l2Get_keeps_exec w1 ns (cacheKey md5_hex ns key)) as Hk.
    destruct (l2Get _ _ w1) as [[[v|]| |] w2]; cbn [snd] in Hk; step_M; done. }
  unfold get. rewrite bind_run, gets_run. cbv beta iota zeta.
  destruct (l1 (cache w0) !! _) as [e|]; [|apply Hl2].
  rewrite bind_run, Date_now_run. cbv beta iota.
  destruct (_ <? _); [by rewrite ret_run|].
  rewrite bind_run, modify_cache_run. cbv beta iota. exact (Hl2 _).
Qed.
Lemma merge_no_results (n : nat) : merge_results (replicate n []) = [].
Proof.
  unfold merge_results, fill_docMap.
  assert (fold_left count_matches (replicate n []) [] = []) as ->; [|done].
  induction n as [|n IH]; [done|]. simpl. exact IH.
Qed.

(** With no child ever calling back, every keyword search comes back empty. *)
Lemma searches_unanswered (keywords : list string) : forall w,
  (forall n args, exec w n args = ExecNever) ->
  exists w',
    all_map runKBSearch keywords w = (Returns (replicate (length keywords) []), w')
    /\ cache w' = cache w /\ disk w' = disk w /\ sessionCache w' = sessionCache w
    /\ spawned w' = (spawned w + length keywords)%nat.
Proof.
  induction keywords as [|kw r IH]; intros w Hdown; simpl.
  - eexists. split; [reflexivity|]. repeat split. lia.
  - rewrite runKBSearch_result. unfold query_result at 1. rewrite Hdown.
    cbn [exitCode timed_out]. change (1 =? 0) with false. cbv iota.
    match goal with |- context [all_map runKBSearch r ?w1] =>
      destruct (IH w1) as (w' & -> & Hc & Hd & Hsc & Hs) end.
    { intros n args. unfold after_query. reduce_world. apply Hdown. }
    eexists. split; [reflexivity|]. unfold after_query in *. reduce_world_in Hs.
    repeat split; try done. lia.
Qed.

(** X24.  With the CLI installed but answering no call, no session cache
    and nothing cached for the prompt, [buildContext] returns no block; it
    stores nothing, neither in the session cache nor in the fast tier nor on
    disk, so the next call asks again. *)
Theorem buildContext_upstream_down (prompt : string) (depth : ContextDepth) w :
  installed w = true ->
  sessionCache w = None ->
  (forall n args, exec w n args = ExecNever) ->
  l1 (cache w) !! cacheKey md5_hex kb prompt = None ->
  (forall t, persisted_hit (disk w kb) (cacheKey md5_hex kb prompt) t = None) ->
  exists w',
    buildContext md5_hex prompt depth w = (Returns None, w')
    /\ sessionCache w' = None
    /\ l1 (cache w') = l1 (cache w) /\ disk w' = disk w
    /\ (spawned w < spawned w')%nat.
Proof.
  intros Hinst Hsc Hdown Hl1 Hdisk.
  unfold buildContext. rewrite bind_run, ensureInstalled_run, Hinst. cbv beta iota.
  cbn [negb]. cbv zeta. rewrite bind_run. unfold all_pair.
  pose proof (fetchRecentSessions_result depth w) as Hfetch. cbv zeta in Hfetch.
  rewrite Hsc in Hfetch. unfold query_result in Hfetch. rewrite Hdown in Hfetch.
  cbn [exitCode timed_out] in Hfetch. change (1 =? 0) with false in Hfetch.
  cbv iota in Hfetch. rewrite Hfetch.
  match goal with |- context [(if ?b then _ else _) ?w1] =>
    set (wants_kb := b); set (wa := w1) end.
  assert (exists w2,
            (if wants_kb then searchKB md5_hex prompt else mret []) wa = (Returns [], w2)
            /\ sessionCache w2 = None /\ l1 (cache w2) = l1 (cache w)
            /\ disk w2 = disk w /\ (spawned w < spawned w2)%nat)
    as (w2 & -> & Hsc2 & Hl2 & Hd2 & Hs2).
  { destruct wants_kb.
    - unfold searchKB. rewrite bind_run.
      destruct (get_miss_run md5_hex wa kb prompt Hl1 (Hdisk _))
        as (wb & Hget & Hl1b & Hdiskb & _ & _ & Hsb).
      pose proof (get_keeps_exec wa kb prompt) as [Hexec Hscb].
      rewrite Hget in Hexec, Hscb |- *. cbn [snd] in Hexec, Hscb.
      cbv beta iota zeta. rewrite bind_run.
      destruct (searches_unanswered (extractSearchKeywords prompt 3) wb)
        as (wc & -> & Hc & Hd & Hscc & Hs).
      { intros n args. rewrite Hexec. apply Hdown. }
      cbv beta iota. rewrite merge_no_results. cbn [length Nat.ltb Nat.leb].
      rewrite !bind_run, !ret_run. eexists. split; [reflexivity|].
      rewrite Hscc, Hscb, Hc, Hl1b, Hd, Hdiskb. unfold wa, after_query in *.
      reduce_world_in Hsb. reduce_world. repeat split; try done. lia.
    - rewrite ret_run. eexists. split; [reflexivity|]. unfold wa, after_query.
      reduce_world. repeat split; try done. lia. }
  cbn [join_all]. cbv beta iota. rewrite ret_run. by eexists.
Qed.
End Down.

(** ** The terms of a prompt *)

Lemma all_chars_app (P : ascii -> bool) (s t : string) :
  all_chars P (s +:+ t) = all_chars P s && all_chars P t.
Proof.
  induction s as [|c r IH]; [done|]. rewrite str_app_cons. simpl.
  by rewrite IH, andb_assoc.
Qed.

Lemma strip_char_kept (s : string) : all_chars keep_char (JS.map_chars strip_char s) = true.
Proof.
  induction s as [|c r IH]; [done|]. simpl. rewrite IH, andb_true_r.
  unfold strip_char. by destruct (keep_char c) eqn:Hc.
Qed.

Lemma split_ws_go_chars (s : string) : forall (in_sep : bool) (cur : string),
  all_chars keep_char s = true -> all_chars is_term_char cur = true ->
  Forall (fun piece => all_chars is_term_char piece = true) (JS.split_ws_go in_sep cur s).
Proof.
  induction s as [|c r IH]; intros in_sep cur Hs Hcur; simpl.
  - by constructor.
  - simpl in Hs. apply andb_true_iff in Hs as [Hc Hr].
    destruct (JS.is_ws c) eqn:Hws.
    + destruct in_sep; [by apply IH|]. constructor; [done | by apply IH].
    + apply IH; [done|]. rewrite all_chars_app, Hcur. simpl. rewrite andb_true_r.
      unfold keep_char in Hc. unfold is_term_char. rewrite Hws, orb_false_r in Hc.
      done.
Qed.

Lemma score_words_keys (total : nat) (ws : list string) : forall i,
  map fst (score_words total i ws) = ws.
Proof. induction ws as [|x r IH]; intros i; simpl; [done|]. by rewrite IH. Qed.

Lemma omap_set_entries {V} (m : list (string * V)) (k : string) (v : V) (kv : string * V) :
  kv ∈ JS.omap_set m k v -> kv ∈ m \/ kv = (k, v).
Proof.
  induction m as [|[k' v'] r IH]; simpl.
  - intros ->%list_elem_of_singleton. by right.
  - destruct (String.eqb_spec k' k) as [->|Hne].
    + intros [->|Hin]%elem_of_cons; [by right | left; by right].
    + intros [->|Hin]%elem_of_cons; [left; by left|].
      destruct (IH Hin) as [?|?]; [left; by right | by right].
Qed.

Lemma dedupe_scores_entries (scored : list (string * Z)) : forall seen kv,
  kv ∈ dedupe_scores seen scored -> kv ∈ seen \/ kv ∈ scored.
Proof.
  induction scored as [|[word score] r IH]; intros seen kv; simpl; [by left|].
  intros Hin.
  assert (kv ∈ JS.omap_set seen word score \/ kv ∈ seen \/ kv ∈ r) as Hcases.
  { destruct (JS.omap_get seen word) as [existing|].
    - destruct (existing <? score); apply IH in Hin as [?|?]; auto.
    - apply IH in Hin as [?|?]; auto. }
  destruct Hcases as [Hset | [? | ?]]; [|by left | right; by right].
  apply omap_set_entries in Hset as [? | ->]; [by left | right; by left].
Qed.

Lemma score_words_bounds (total : nat) (ws : list string) : forall (i : nat) word score,
  (i + length ws <= total)%nat ->
  (word, score) ∈ score_words total i ws ->
  word ∈ ws
  /\ Z.of_nat (String.length word) * 10 + 1 <= score
     <= Z.of_nat (String.length word) * 10 + Z.of_nat total.
Proof.
  induction ws as [|x r IH]; intros i word score Hlen; simpl.
  - intros H. by apply elem_of_nil in H.
  - simpl in Hlen. intros [[= -> ->]|Hin]%elem_of_cons.
    + split; [by left | lia].
    + apply IH in Hin as [? ?]; [|lia]. split; [by right | done].
Qed.

(** A returned term sits in the sorted score table, with a score between
    ten times its length plus one and ten times its length plus the number
    of surviving words. *)
Lemma keyword_entries (prompt : string) (count : Z) (i : nat) (k : string) :
  candidate_words prompt <> [] ->
  extractSearchKeywords prompt count !! i = Some k ->
  exists score,
    JS.sort (fun a b : string * Z => snd b - snd a)
      (dedupe_scores []
         (score_words (length (candidate_words prompt)) 0 (candidate_words prompt)))
    !! i = Some (k, score)
    /\ k ∈ candidate_words prompt
    /\ Z.of_nat (String.length k) * 10 + 1 <= score
       <= Z.of_nat (String.length k) * 10 + Z.of_nat (length (candidate_words prompt)).
Proof.
  intros Hne Hk. unfold extractSearchKeywords in Hk.
  destruct (candidate_words prompt) as [|w0 ws] eqn:Hwords; [done|]. cbv zeta in Hk.
  match type of Hk with context [JS.array_slice0 ?l count] =>
    destruct (array_slice0_prefix l count) as [n Hn]; rewrite Hn in Hk end.
  apply lookup_take_Some in Hk as [Hk _].
  rewrite list_lookup_fmap in Hk.
  match type of Hk with context [?sorted !! i] =>
    destruct (sorted !! i) as [[k' score]|] eqn:Hi; [|done] end.
  injection Hk as ->. exists score. split; [done|].
  apply list_elem_of_lookup_2 in Hi. rewrite sort_perm in Hi.
  apply dedupe_scores_entries in Hi as [Hi|Hi]; [by apply elem_of_nil in Hi|].
  apply score_words_bounds in Hi; [done | lia].
Qed.

(** X18.  When some word of the prompt survives the filter, every term
    [extractSearchKeywords] returns is one of the surviving words: at least
    three characters, all of them lower-case letters, digits or hyphens, and
    not a stop word. *)
Theorem extractSearchKeywords_terms (prompt : string) (count : Z) (k : string) :
  candidate_words prompt <> [] ->
  k ∈ extractSearchKeywords prompt count ->
  k ∈ candidate_words prompt
  /\ (3 <= String.length k)%nat
  /\ is_stop_word k = false
  /\ all_chars is_term_char k = true.
Proof.
  intros Hne [i Hi]%list_elem_of_lookup_1.
  destruct (keyword_entries prompt count i k Hne Hi) as (score & _ & Hin & _).
  split; [done|].
  unfold candidate_words in Hin. apply list_elem_of_In, filter_In in Hin as [Hin Hkeep].
  apply andb_true_iff in Hkeep as [Hlen Hstop].
  split; [by apply Nat.leb_le|]. split; [by apply negb_true_iff|].
  apply list_elem_of_In in Hin.
  pose proof (split_ws_go_chars (JS.map_chars strip_char (JS.toLowerCase prompt))
                false "" (strip_char_kept _) eq_refl) as Hall.
  rewrite Forall_forall in Hall. by apply Hall.
Qed.

(** X19.  For a prompt with at most ten surviving words, the terms come
    longest first: a term is never longer than one before it. *)
Theorem extractSearchKeywords_longest_first (prompt : string) (count : Z) (i j : nat)
    (a b : string) :
  (length (candidate_words prompt) <= 10)%nat ->
  (i < j)%nat ->
  extractSearchKeywords prompt count !! i = Some a ->
  extractSearchKeywords prompt count !! j = Some b ->
  (String.length b <= String.length a)%nat.
Proof.
  intros Hfew Hij Ha Hb.
  destruct (candidate_words prompt) as [|w0 ws] eqn:Hwords.
  { unfold extractSearchKeywords in Ha, Hb. rewrite Hwords in Ha, Hb.
    destruct i, j; simpl in *; done || lia. }
  assert (candidate_words prompt <> []) as Hne by (by rewrite Hwords).
  rewrite <- Hwords in Hfew.
  destruct (keyword_entries prompt count i a Hne Ha) as (sa & Hia & _ & Hsa).
  destruct (keyword_entries prompt count j b Hne Hb) as (sb & Hjb & _ & Hsb).
  pose proof (StronglySorted_lookup _ _ _ _ _ _ (sort_sorted snd _) Hij Hia Hjb) as Hle.
  simpl in Hle. lia.
Qed.

(** With twelve surviving words the position bonus of an early word of
    three letters outweighs the fourth letter of a late one. *)
Example longest_first_needs_few_words :
  extractSearchKeywords "abc bcd cde def efg fgh ghi hij ijk jkl klm long" 3
  = ["abc"; "bcd"; "long"].
Proof. vm_compute. reflexivity. Qed.

(** X25.  [extractSearchKeyword] always has a term to return, and it is
    the first of the terms [extractSearchKeywords] returns for any count of
    at least one. *)
Theorem extractSearchKeyword_defined (prompt : string) (count : Z) :
  1 <= count ->
  exists best,
    extractSearchKeyword prompt = Some best
    /\ head (extractSearchKeywords prompt count) = Some best.
Proof.
  intros Hcount. unfold extractSearchKeyword, extractSearchKeywords.
  destruct (candidate_words prompt) as [|w0 ws] eqn:Hwords; [by eexists|].
  cbv zeta. rewrite !array_slice0_take by lia.
  match goal with |- context [take _ ?l] => set (unique := l) end.
  assert (unique <> []) as Hne.
  { unfold unique. intros Hnil%fmap_nil_inv.
    match type of Hnil with JS.sort ?cmp ?seen = [] =>
      pose proof (sort_perm cmp seen) as Hperm end.
    rewrite Hnil in Hperm. apply Permutation_nil_l in Hperm. symmetry in Hperm.
    revert Hperm. apply dedupe_scores_nonempty. by right. }
  destruct unique as [|best rest]; [done|]. exists best.
  destruct (Z.to_nat count) as [|n] eqn:Hn; [lia|]. done.
Qed.

(** ** The shapes of upstream records *)

(** X26.  The two shapes of a session record: from the local cache,
    [{id, project, event_file}] gives the tool [unknown] and no start time;
    from the API, [conversation_id], [project_path] and [first_event] take
    the place of [id], [project] and the start time, and [duration_minutes]
    becomes the duration with an [m] appended. *)
Theorem session_of_item_shapes (id project event_file tool first_event last_event : string)
    (minutes : JS.jsnum) :
  session_of_item (JS.JObj [("id", JS.JStr id); ("project", JS.JStr project);
                            ("event_file", JS.JStr event_file)])
  = JS.Ok {| sm_id := id; sm_tool := "unknown"; sm_project := project;
             sm_branch := None; sm_startedAt := ""; sm_duration := None;
             sm_summary := None |}
  /\ session_of_item (JS.JObj [("conversation_id", JS.JStr id); ("tool", JS.JStr tool);
                               ("project_path", JS.JStr project);
                               ("first_event", JS.JStr first_event);
                               ("last_event", JS.JStr last_event);
                               ("duration_minutes", JS.JNum minutes)])
     = JS.Ok {| sm_id := id; sm_tool := tool; sm_project := project;
                sm_branch := None; sm_startedAt := first_event;
                sm_duration := Some (JS.Number_toString minutes +:+ "m");
                sm_summary := None |}.
Proof. split; reflexivity. Qed.

(** X27.  Of a search hit [{document, score, snippet, match_type}] the
    match takes identifier, category and text from the document: the content
    of the document, not the snippet, is the text, and an empty category
    counts as none. *)
Theorem match_of_entry_document (id content category snippet match_type : string)
    (score : JS.jsnum) :
  match_of_entry
    (JS.JObj [("document", JS.JObj [("id", JS.JStr id); ("content", JS.JStr content);
                                    ("category", JS.JStr category)]);
              ("score", JS.JNum score); ("snippet", JS.JStr snippet);
              ("match_type", JS.JStr match_type)])
  = JS.Ok {| kb_id := id;
             kb_category := if (category =? "")%string then None else Some category;
             kb_text := content |}.
Proof. unfold match_of_entry. simpl. by destruct (category =? "")%string. Qed.

(** ** Timestamps *)

Section Age.
Implicit Types w : World (list KBMatch).

(** X17.  [formatTimestamp] never throws.  For a date [t] it reads the
    clock once and gives the age rounded down to whole minutes below an
    hour, to whole hours below a day, to whole days from then on; a date in
    the future, an empty or an unparsable text gives [recently]. *)
Theorem formatTimestamp_age (iso : string) w :
  (formatTimestamp iso w).1
  = Returns
      match date_parse w iso with
      | Some t =>
          let age := clock w (ticks w) - t in
          if (iso =? "")%string then "recently"
          else if age <? 0 then "recently"
          else if age <? 3600000 then show_int (age / 60000) +:+ "m ago"
          else if age <? 86400000 then show_int (age / 3600000) +:+ "h ago"
          else show_int (age / 86400000) +:+ "d ago"
      | None => "recently"
      end.
Proof.
  unfold formatTimestamp, nonempty. rewrite negb_involutive.
  destruct (iso =? "")%string; [by destruct (date_parse w iso)|].
  step_M. destruct (date_parse w iso) as [t|]; [|by step_M]. step_M. cbv zeta.
  set (age := clock w (ticks w) - t).
  assert (age / 60000 / 60 = age / 3600000) as Hh by (rewrite Z.div_div by lia; done).
  assert (age / 60000 / 60 / 24 = age / 86400000) as Hd
    by (rewrite !Z.div_div by lia; done).
  rewrite Hd, Hh.
  assert (forall b, 0 < b -> b * (age / b) <= age < b * (age / b) + b) as Hdiv.
  { intros b Hb. pose proof (Z.mod_pos_bound age b Hb).
    pose proof (Z.div_mod age b ltac:(lia)). lia. }
  pose proof (Hdiv 60000 ltac:(lia)). pose proof (Hdiv 3600000 ltac:(lia)).
  pose proof (Hdiv 86400000 ltac:(lia)).
  destruct (Z.ltb_spec (age / 60000) 0), (Z.ltb_spec age 0); try lia; [done|].
  destruct (Z.ltb_spec (age / 60000) 60), (Z.ltb_spec age 3600000); try lia;
    [by step_M|].
  destruct (Z.ltb_spec (age / 3600000) 24), (Z.ltb_spec age 86400000); try lia;
    by step_M.
Qed.
End Age.

(** ** The runner helpers and the context injection *)

Lemma startsWith_spec (s p : string) :
  JS.startsWith s p = true <-> exists post, s = p +:+ post.
Proof.
  revert s. induction p as [|a p IH]; intros s.
  - split; [intros _; by exists s | by destruct s].
  - destruct s as [|b s]; simpl.
    + split; [done | intros [post Hpost]; by rewrite str_app_cons in Hpost].
    + destruct (Ascii.eqb_spec a b) as [->|Hne].
      * rewrite IH. split; intros [post Hpost]; exists post.
        -- by rewrite str_app_cons, Hpost.
        -- rewrite str_app_cons in Hpost. by injection Hpost.
      * split; [done|]. intros [post Hpost]. rewrite str_app_cons in Hpost.
        injection Hpost as ->. done.
Qed.

(** [includes] finds exactly the substrings. *)
Lemma includes_spec (s sub : string) :
  includes s sub = true <-> exists pre post, s = pre +:+ sub +:+ post.
Proof.
  induction s as [|c r IH].
  - cbn [includes]. rewrite orb_false_r, startsWith_spec. split.
    + intros [post Hpost]. by exists "", post.
    + intros (pre & post & Hs). destruct pre; [by exists post|].
      by rewrite str_app_cons in Hs.
  - cbn [includes]. rewrite orb_true_iff, IH, startsWith_spec. split.
    + intros [[post Hpost] | (pre & post & Hr)].
      * by exists "", post.
      * exists (String c pre), post. by rewrite str_app_cons, Hr.
    + intros (pre & post & Hs). destruct pre as [|c' pre].
      * left. by exists post.
      * right. rewrite str_app_cons in Hs. injection Hs as -> ->. by exists pre, post.
Qed.

Section RunnerFacts.
Context {V : Type}.
Implicit Types w : World V.

(** [await run(...)] for a child that calls back, without an abort signal. *)
Lemma run_callback (args : list string) (timeout : TimeoutCategory) (json : bool) w
    (after : nat) (error : option ExecError) (out err : string) :
  let finalArgs := if json then args ++ ["--format"; "json"] else args in
  exec w (spawned w) finalArgs = ExecCallback after error out err ->
  (p ← run args timeout json None; await p) w
  = (Returns {| stdout := out; stderr := err; exitCode := exit_code error |},
     with_effects (effects w ++ [ExecFile finalArgs (TIMEOUTS timeout)])
       (with_spawned (S (spawned w)) w)).
Proof.
  intros finalArgs Hexec. unfold run. fold finalArgs. step_M. rewrite Hexec. step_M.
  unfold await. step_M. by destruct error as [[[c|]]|].
Qed.

(** X20.  [checkAuthStatus] never throws.  It answers [not_installed],
    without spawning anything, exactly when the binary is missing; otherwise
    its verdict on a [status] run that calls back depends on the standard
    output alone: [not_authenticated] when one of the three markers occurs
    in it, [authenticated] otherwise, whatever the exit code. *)
Theorem checkAuthStatus_verdict w :
  (installed w = false -> checkAuthStatus w = (Returns not_installed, w))
  /\ (installed w = true ->
      forall after error out err,
        exec w (spawned w) ["status"] = ExecCallback after error out err ->
        exists verdict,
          (checkAuthStatus w).1 = Returns verdict
          /\ (verdict = not_authenticated \/ verdict = authenticated)
          /\ (verdict = not_authenticated <->
              exists marker pre post,
                marker ∈ ["Not logged in"; "Not authenticated"; "Skip-auth"]
                /\ out = pre +:+ marker +:+ post))
  /\ (forall e, (checkAuthStatus w).1 <> Throws e).
Proof.
  unfold checkAuthStatus. rewrite bind_run, ensureInstalled_run. cbv beta iota.
  destruct (installed w); cbn [negb].
  - split; [done|]. split.
    + intros _ after error out err Hexec. rewrite try_catchM_run.
      pose proof (run_callback ["status"] t_fast false w after error out err Hexec) as Hrun.
      rewrite bind_run in Hrun. rewrite bind_run.
      destruct (run _ _ _ _ w) as [[p| |] w1]; [|done..].
      cbv beta iota in Hrun |- *. rewrite bind_run, Hrun. cbv beta iota zeta.
      cbn [stdout].
      destruct (includes out "Not logged in") eqn:H1;
        [|destruct (includes out "Not authenticated") eqn:H2;
          [|destruct (includes out "Skip-auth") eqn:H3]]; cbn [orb]; rewrite ret_run;
        eexists; (split; [reflexivity|]).
      * split; [by left|]. split; [|done]. intros _.
        apply includes_spec in H1 as (pre & post & ->).
        exists "Not logged in", pre, post. split; [set_solver | done].
      * split; [by left|]. split; [|done]. intros _.
        apply includes_spec in H2 as (pre & post & ->).
        exists "Not authenticated", pre, post. split; [set_solver | done].
      * split; [by left|]. split; [|done]. intros _.
        apply includes_spec in H3 as (pre & post & ->).
        exists "Skip-auth", pre, post. split; [set_solver | done].
      * split; [by right|]. split; [done|].
        intros (marker & pre & post & Hm & ->).
        assert (includes (pre +:+ marker +:+ post) marker = true) as Hinc
          by (apply includes_spec; by exists pre, post).
        repeat (apply elem_of_cons in Hm as [->|Hm]; [congruence|]).
        by apply elem_of_nil in Hm.
    + intros e. rewrite try_catchM_run.
      match goal with |- (match ?m with _ => _ end).1 <> _ =>
        destruct m as [[a| |] w1] end; [done | | done].
      by rewrite ret_run.
  - rewrite ret_run. split; [done|]. split; [done|]. done.
Qed.

(** X21.  [runText] spawns the command as given and, when the child calls
    back, returns its standard output unchanged exactly when the exit code
    is 0; otherwise the message names the subcommand and the exit code and
    carries the standard error, or the standard output when that is empty. *)
Theorem runText_outcome (args : list string) (timeout : TimeoutCategory) w
    (after : nat) (error : option ExecError) (out err : string) :
  exec w (spawned w) args = ExecCallback after error out err ->
  runText args timeout None w
  = (Returns (if exit_code error =? 0 then Done out
              else Failed ("tribe " +:+ subcommand args +:+ " failed (exit "
                             +:+ show_exit (exit_code error) +:+ "): "
                             +:+ (if (err =? "")%string then out else err))),
     with_effects (effects w ++ [ExecFile args (TIMEOUTS timeout)])
       (with_spawned (S (spawned w)) w)).
Proof.
  intros Hexec. unfold runText.
  pose proof (run_callback args timeout false w after error out err Hexec) as Hrun.
  rewrite bind_run in Hrun. rewrite bind_run.
  destruct (run _ _ _ _ w) as [[p| |] w1]; [|done..].
  cbv beta iota in Hrun |- *. rewrite bind_run, Hrun. cbv beta iota.
  cbn [exitCode stdout stderr]. unfold failure_message, nonempty. cbn [exitCode stdout stderr].
  destruct (exit_code error =? 0); cbn [negb]; rewrite ret_run; [done|].
  by destruct (err =? "")%string.
Qed.

(** X22.  [runJson] spawns the command with [--format json] appended and,
    when the child calls back with exit code 0, returns what [JSON.parse]
    makes of the whole standard output; output that is not JSON gives a
    failure that quotes its first 200 characters, and another exit code the
    failure of [runText]. *)
Theorem runJson_outcome (args : list string) (timeout : TimeoutCategory) w
    (after : nat) (error : option ExecError) (out err : string) :
  exec w (spawned w) (args ++ ["--format"; "json"]) = ExecCallback after error out err ->
  runJson args timeout None w
  = (Returns (if exit_code error =? 0 then
                match JS.JSON_parse out with
                | JS.Ok v => Done v
                | JS.Throw _ =>
                    Failed ("tribe " +:+ subcommand args +:+ " returned non-JSON output: "
                              +:+ JS.slice_to out 200)
                end
              else Failed ("tribe " +:+ subcommand args +:+ " failed (exit "
                             +:+ show_exit (exit_code error) +:+ "): "
                             +:+ (if (err =? "")%string then out else err))),
     with_effects (effects w ++ [ExecFile (args ++ ["--format"; "json"]) (TIMEOUTS timeout)])
       (with_spawned (S (spawned w)) w)).
Proof.
  intros Hexec. unfold runJson.
  pose proof (run_callback args timeout true w after error out err Hexec) as Hrun.
  rewrite bind_run in Hrun. rewrite bind_run.
  destruct (run _ _ _ _ w) as [[p| |] w1]; [|done..].
  cbv beta iota in Hrun |- *. rewrite bind_run, Hrun. cbv beta iota.
  cbn [exitCode stdout stderr]. unfold failure_message, nonempty. cbn [exitCode stdout stderr].
  destruct (exit_code error =? 0); cbn [negb].
  - by destruct (JS.JSON_parse out); rewrite ret_run.
  - rewrite ret_run. by destruct (err =? "")%string.
Qed.
End RunnerFacts.

Section Hook.
Context (md5_hex : string -> string).
Implicit Types w : World (list KBMatch).


End Hook.

Lemma ran_inl {V A} (execute : M V A) (w1 w' : World V) (r : A) :
  (a ← execute; mret (inl a : A + string)) w1 = (Returns (inl r), w') ->
  execute w1 = (Returns r, w').
Proof.
  rewrite bind_run. destruct (execute w1) as [[a| |] w2]; [|done..].
  rewrite ret_run. by intros [= -> ->].
Qed.

(** X28.  The guard around the tools: a tool other than [tribe_setup] is
    refused, with nothing run, when the CLI is not installed; and when such
    a tool has run, the CLI was installed, and the status check had answered
    [authenticated] or the tool is one of the five that need no login. *)
Theorem guarded_execute_gate {V A} (name : string) (execute : M V A) (w : World V) :
  name <> "tribe_setup" ->
  (installed w = false ->
   guarded_execute name execute w = (Returns (inr not_installed_text), w))
  /\ (forall (r : A) (w' : World V),
        guarded_execute name execute w = (Returns (inl r), w') ->
        installed w = true
        /\ exists status w1,
             checkAuthStatus w = (Returns status, w1)
             /\ execute w1 = (Returns r, w')
             /\ (status = authenticated
                 \/ status = not_authenticated /\ name ∈ noAuthRequired)).
Proof.
  intros Hname. unfold guarded_execute.
  rewrite (proj2 (String.eqb_neq name "tribe_setup")) by done.
  assert (installed w = false -> checkAuthStatus w = (Returns not_installed, w))
    as Hmissing.
  { intros Hinst. unfold checkAuthStatus.
    rewrite bind_run, ensureInstalled_run, Hinst. cbv beta iota. cbn [negb].
    by rewrite ret_run. }
  split.
  - intros Hinst. rewrite bind_run, (Hmissing Hinst). cbv beta iota. by rewrite ret_run.
  - intros r w'. destruct (installed w) eqn:Hinst.
    2:{ rewrite bind_run, (Hmissing eq_refl). cbv beta iota. by rewrite ret_run. }
    rewrite bind_run.
    destruct (checkAuthStatus w) as [[status| |] w1] eqn:Hstatus; [|done..].
    cbv beta iota.
    destruct status.
    + intros Hran%ran_inl. split; [done|]. exists authenticated, w1. auto.
    + destruct (existsb (String.eqb name) noAuthRequired) eqn:Hexempt; cbn [negb];
        [|by rewrite ret_run].
      intros Hran%ran_inl. split; [done|]. exists not_authenticated, w1.
      split; [done|]. split; [done|]. right. split; [done|].
      apply existsb_exists in Hexempt as (x & Hin & ->%String.eqb_eq).
      by apply list_elem_of_In.
    + by rewrite ret_run.
Qed.

(** ** The hypotheses above can be met *)

Lemma namespace_independence_witness :
  ((_ ← set (fun key => key) kb "x" 1%nat;
    _ ← set (fun key => key) sessions "x" 2%nat;
    a ← get (fun key => key) kb "x";
    b ← get (fun key => key) sessions "x";
    mret (a, b)) cold_world).1
  = Returns (Some 1%nat, Some 2%nat).
Proof.
  apply (namespace_independence (fun key => key) cold_world kb sessions "x" 1%nat 2%nat);
    [discriminate | reflexivity | reflexivity].
Defined.

Lemma sets_share_one_timer_witness :
  effects (set_each (fun key => key) kb [("a", 1%nat); ("b", 2%nat); ("c", 3%nat)]
             cold_world).2
  = [SetTimeout DEBOUNCE_MS].
Proof.
  apply (sets_share_one_timer (fun key => key) [("a", 1%nat); ("b", 2%nat); ("c", 3%nat)]
           cold_world kb).
  discriminate.
Defined.

Lemma flushed_value_survives_restart_witness :
  let w2 := (l2_timer_fires kb (set (fun key => key) kb "q" 7%nat cold_world).2).2 in
  (get (fun key => key) kb "q" (with_cache empty_cache w2)).1 = Returns (Some 7%nat).
Proof.
  intros w2.
  rewrite (flushed_value_survives_restart (fun key => key) cold_world
             (with_cache empty_cache w2) kb "q" 7%nat);
    vm_compute; reflexivity.
Defined.

Lemma invalidate_spares_other_namespaces_witness :
  (get (fun key => key) kb "q" (invalidate sessions warm_world).2).1 = Returns (Some 7%nat).
Proof.
  destruct (invalidate_spares_other_namespaces (fun key => key) warm_world sessions kb "q")
    as [Hget _]; [discriminate|].
  rewrite Hget. reflexivity.
Defined.

Lemma runKBSearch_degrades_witness :
  (runKBSearch "cache" (cold_world_of (list KBMatch))).1 = Returns [].
Proof.
  rewrite (runKBSearch_degrades "cache" (cold_world_of (list KBMatch))); [reflexivity|].
  left. reflexivity.
Defined.

Lemma runKBSearch_null_entry_witness :
  (runKBSearch "cache" (reply_world (json_text "[{'id':'a','content':'x'},null]"))).1
  = Returns [].
Proof.
  apply (runKBSearch_null_entry "cache"
           (reply_world (json_text "[{'id':'a','content':'x'},null]")) 0
           (json_text "[{'id':'a','content':'x'},null]") ""
           [JS.JObj [("id", JS.JStr "a"); ("content", JS.JStr "x")]; JS.JNull]).
  - reflexivity.
  - unfold QUERY_TIMEOUT_MS. lia.
  - vm_compute. reflexivity.
  - simpl. apply list_elem_of_further, list_elem_of_here.
Defined.

Lemma fetchRecentSessions_cache_window_witness :
  let w := with_sessionCache (Some {| cc_sessions := []; cc_fetchedAt := 0 |})
             (reply_world "[]") in
  spawned (fetchRecentSessions deep w).2 = 0%nat.
Proof.
  intros w.
  exact (f_equal (fun r => spawned r.2)
           (fetchRecentSessions_cache_window deep w
              {| cc_sessions := []; cc_fetchedAt := 0 |} eq_refl)).
Defined.

Lemma searchKB_then_hit_witness :
  let w := reply_world (json_text "[{'id':'d1','content':'x'}]") in
  let w1 := (searchKB (fun key => key) "rate limiting" w).2 in
  spawned (searchKB (fun key => key) "rate limiting" w1).2 = spawned w1.
Proof.
  intros w w1.
  rewrite (searchKB_then_hit (fun key => key) w w1 "rate limiting"
             [{| kb_id := "d1"; kb_category := None; kb_text := "x" |}]).
  - vm_compute. reflexivity.
  - vm_compute. reflexivity.
  - intros t. vm_compute. reflexivity.
  - intros n m. vm_compute. reflexivity.
  - vm_compute. reflexivity.
  - discriminate.
Defined.

Lemma buildContext_block_shape_witness :
  let w := reply_world (json_text "[{'id':'s1','tool':'claude','project':'p'}]") in
  exists heading rest block,
    (buildContext (fun key => key) "hello world" minimal w).1 = Returns (Some block)
    /\ block = "<tribe-context>" +:+ nl +:+ heading +:+ nl +:+ rest
                 +:+ nl +:+ "</tribe-context>".
Proof.
  intros w.
  destruct (buildContext_block_shape (fun key => key) "hello world" minimal w
              (buildContext (fun key => key) "hello world" minimal w).2
              (match (buildContext (fun key => key) "hello world" minimal w).1 with
               | Returns (Some block) => block
               | _ => ""
               end))
    as (heading & rest & _ & Hblock).
  { vm_compute. reflexivity. }
  exists heading, rest. eexists. split; [|exact Hblock]. vm_compute. reflexivity.
Defined.

Lemma extractSearchKeywords_terms_witness :
  is_stop_word "authentication" = false
  /\ all_chars is_term_char "authentication" = true.
Proof.
  destruct (extractSearchKeywords_terms "how do I implement authentication" 3
              "authentication") as (_ & _ & Hstop & Hchars).
  - vm_compute. discriminate.
  - vm_compute. apply list_elem_of_here.
  - by split.
Defined.

Lemma extractSearchKeywords_longest_first_witness :
  (String.length "middleware" <= String.length "authentication")%nat.
Proof.
  apply (extractSearchKeywords_longest_first "implement authentication middleware" 3 0 1).
  - vm_compute. lia.
  - lia.
  - reflexivity.
  - reflexivity.
Defined.

Lemma runText_outcome_witness :
  (runText ["version"] t_fast None (reply_world "1.2.3")).1 = Returns (Done "1.2.3").
Proof.
  rewrite (runText_outcome ["version"] t_fast (reply_world "1.2.3") 0 None "1.2.3" "");
    reflexivity.
Defined.

Lemma runJson_outcome_witness :
  (runJson ["sessions"] t_fast None (reply_world "[]")).1 = Returns (Done (JS.JArr [])).
Proof.
  rewrite (runJson_outcome ["sessions"] t_fast (reply_world "[]") 0 None "[]" "");
    reflexivity.
Defined.

Lemma buildContext_upstream_down_witness :
  (buildContext (fun key => key) "hello world" standard (cold_world_of (list KBMatch))).1
  = Returns None.
Proof.
  destruct (buildContext_upstream_down (fun key => key) "hello world" standard
              (cold_world_of (list KBMatch))) as (w' & -> & _); reflexivity.
Defined.

Lemma extractSearchKeyword_defined_witness :
  exists best,
    extractSearchKeyword "kubernetes" = Some best
    /\ head (extractSearchKeywords "kubernetes" 3) = Some best.
Proof. apply (extractSearchKeyword_defined "kubernetes" 3). lia. Defined.

Lemma guarded_execute_gate_witness :
  guarded_execute "tribe_search" (mret 1%nat) bare_world
  = (Returns (inr not_installed_text), bare_world).
Proof.
  destruct (guarded_execute_gate "tribe_search" (mret 1%nat) bare_world)
    as [Hmissing _]; [discriminate|].
  exact (Hmissing eq_refl).
Defined.
